(** * Verification of modules/aws/s3.go (terratest S3 helpers)

    The helpers of [modules/aws/s3.go] are embedded as programs of a small
    state monad over an abstract model of the AWS SDK: the SDK client is an
    interface ([Sdk]) whose one handler answers every request the helpers
    issue, threading the state of the object store.  Go's [(value, error)]
    results are pairs whose second component is an [option]; a nil pointer
    is [None], and dereferencing it is a panic of the monad. *)

From Stdlib Require Import String Ascii List Bool Arith Lia.
From stdpp Require Import base option list gmap strings.

Local Open Scope string_scope.
Local Open Scope list_scope.

(** ** Errors *)

(** An error value handed back by the SDK.  The helpers only ever observe
    it through its [Error()] string. *)
Record sdkError := SdkError { Error : string }.

(** Go's [error] interface, restricted to the dynamic types this file can
    return: SDK errors passed through, [fmt.Errorf] wrapping with [%w],
    [S3AccessLoggingNotEnabledErr] (declared at the end of s3.go), and the
    two error values built by [NewBucketVersioningNotEnabledError] and
    [NewNoBucketPolicyError]. *)
Inductive error :=
| ErrSdk (e : sdkError)
| ErrWrapped (format : string) (e : error)
| S3AccessLoggingNotEnabledErr (OriginBucket Region : string)
| BucketVersioningNotEnabledError (bucketName region status : string)
| NoBucketPolicyError (bucketName region policy : string).

(** [func (err S3AccessLoggingNotEnabledErr) Error() string] *)
Definition S3AccessLoggingNotEnabledErr_Error (OriginBucket Region : string) : string :=
  "Server Acess Logging hasn't been enabled for S3 Bucket " +:+ OriginBucket
  +:+ " in region " +:+ Region.

Definition NewBucketVersioningNotEnabledError (bucketName region status : string) : error :=
  BucketVersioningNotEnabledError bucketName region status.

Definition NewNoBucketPolicyError (bucketName region policy : string) : error :=
  NoBucketPolicyError bucketName region policy.

(** ** Go library functions used by the helpers *)

(** [strings.Contains(s, substr)] *)
Fixpoint Contains (s substr : string) : bool :=
  String.prefix substr s ||
  match s with
  | EmptyString => false
  | String _ s' => Contains s' substr
  end.

(** [aws.ToString]: the pointed-to string, or the empty string for nil. *)
Definition ToString (p : option string) : string :=
  match p with
  | Some s => s
  | None => ""
  end.

(** [aws.String] *)
Definition String_ptr (s : string) : option string := Some s.

(** ** SDK types (the fields the helpers read or set) *)

(** An [io.Reader]: what reading it to the end yields. *)
Record Reader := { reader_data : string; reader_err : option error }.

Record Tag := { Key : option string; Value : option string }.
Record Bucket := { Name : option string }.
Record ListBucketsOutput := { Buckets : list Bucket }.
Record GetBucketTaggingOutput := { TagSet : list Tag }.
Record GetObjectOutput := { Body : Reader }.

(** [types.ObjectOwnership], [types.MFADelete] and
    [types.BucketVersioningStatus] are string types of the SDK. *)
Definition ObjectOwnershipObjectWriter : string := "ObjectWriter".
Definition MFADeleteDisabled : string := "Disabled".
Definition BucketVersioningStatusEnabled : string := "Enabled".

Record CreateBucketConfiguration := { LocationConstraint : string }.
Record CreateBucketInput := {
  cb_Bucket : option string;
  cb_ObjectOwnership : string;
  cb_CreateBucketConfiguration : option CreateBucketConfiguration
}.

Record VersioningConfiguration := {
  vc_MFADelete : string;
  vc_Status : string
}.

Record ListObjectVersionsInput := {
  lov_Bucket : option string;
  lov_KeyMarker : option string
}.

(** [types.ObjectVersion], [types.DeleteMarkerEntry] and
    [types.ObjectIdentifier] all carry a key and a version id. *)
Record ObjectVersion := { ov_Key : option string; ov_VersionId : option string }.
Record DeleteMarkerEntry := { dm_Key : option string; dm_VersionId : option string }.
Record ObjectIdentifier := { oi_Key : option string; oi_VersionId : option string }.

Record ListObjectVersionsOutput := {
  Versions : list ObjectVersion;
  DeleteMarkers : list DeleteMarkerEntry;
  IsTruncated : option bool;
  NextKeyMarker : option string
}.

Record Delete := { Objects : list ObjectIdentifier }.

Record LoggingEnabled := { TargetBucket : option string; TargetPrefix : option string }.
Record GetBucketLoggingOutput := { LoggingEnabled_ : option LoggingEnabled }.
Record GetBucketVersioningOutput := { Status : string }.
Record GetBucketPolicyOutput := { Policy : option string }.
Record OwnershipControlsRule := { rule_ObjectOwnership : string }.
Record OwnershipControls := { Rules : list OwnershipControlsRule }.
Record GetBucketOwnershipControlsOutput := { OwnershipControls_ : option OwnershipControls }.

(** One constructor per SDK operation the file calls, carrying the input
    struct as the helpers fill it in. *)
Inductive Request :=
| ListBuckets
| GetBucketTagging (Bucket : option string)
| GetObject (Bucket Key : option string)
| PutObject (Bucket Key : option string) (Body : Reader)
| CreateBucket (params : CreateBucketInput)
| PutBucketPolicy (Bucket Policy : option string)
| PutBucketVersioning (Bucket : option string) (cfg : option VersioningConfiguration)
| DeleteBucket (Bucket : option string)
| ListObjectVersions (params : ListObjectVersionsInput)
| DeleteObjects (Bucket : option string) (Delete_ : option Delete)
| GetBucketLogging (Bucket : option string)
| GetBucketVersioning (Bucket : option string)
| GetBucketPolicy (Bucket : option string)
| GetBucketOwnershipControls (Bucket : option string)
| HeadBucket (Bucket : option string).

(** The output struct of each operation; [unit] where the helpers discard it. *)
Definition Reply (r : Request) : Type :=
  match r with
  | ListBuckets => ListBucketsOutput
  | GetBucketTagging _ => GetBucketTaggingOutput
  | GetObject _ _ => GetObjectOutput
  | ListObjectVersions _ => ListObjectVersionsOutput
  | GetBucketLogging _ => GetBucketLoggingOutput
  | GetBucketVersioning _ => GetBucketVersioningOutput
  | GetBucketPolicy _ => GetBucketPolicyOutput
  | GetBucketOwnershipControls _ => GetBucketOwnershipControlsOutput
  | _ => unit
  end.

(** ** The SDK as an interface

    [NewAuthenticatedSession] lives in another file of the package and the
    client methods in the SDK, so both are parameters.  Every method returns
    Go's pair of an output pointer and an error and may change the store. *)
Class Sdk := {
  World : Type;
  Config : Type;
  NewAuthenticatedSession : string -> World -> (option Config * option error) * World;
  handle : Config -> forall r : Request, World -> (option (Reply r) * option sdkError) * World
}.

Record Client `{Sdk} := NewFromConfig { client_config : Config }.
Record Uploader `{Sdk} := NewUploader { uploader_client : Client }.
Arguments NewFromConfig {_} _.
Arguments NewUploader {_} _.

(** ** The monad of the helpers *)

Inductive Outcome (A : Type) :=
| Returned (a : A)       (* the function returned [a] *)
| Panicked               (* nil pointer dereference *)
| TestFailed (e : error) (* [require.NoError] stopped the test on [e] *)
| OutOfFuel.             (* the iteration bound of a [for] loop was reached *)
Arguments Returned {A} a.
Arguments Panicked {A}.
Arguments TestFailed {A} e.
Arguments OutOfFuel {A}.

(** A state monad over any state type [S], with the four outcomes. *)
Definition Prog (S A : Type) : Type := S -> Outcome A * S.

Definition ret {S A} (a : A) : Prog S A := fun s => (Returned a, s).

Definition bind {S A B} (m : Prog S A) (f : A -> Prog S B) : Prog S B := fun s =>
  match m s with
  | (Returned a, s') => f a s'
  | (Panicked, s') => (Panicked, s')
  | (TestFailed e, s') => (TestFailed e, s')
  | (OutOfFuel, s') => (OutOfFuel, s')
  end.

Notation "'do' x <- m ;; k" := (bind m (fun x => k))
  (at level 10, x name, m at level 99, k at level 200).
Notation "'do' ' pat <- m ;; k" := (bind m (fun x => match x with pat => k end))
  (at level 10, pat pattern, m at level 99, k at level 200).

Definition panic {S A} : Prog S A := fun s => (Panicked, s).
Definition out_of_fuel {S A} : Prog S A := fun s => (OutOfFuel, s).

(** [*p] *)
Definition deref {S A} (p : option A) : Prog S A :=
  match p with
  | Some a => ret a
  | None => panic
  end.

(** [require.NoError(t, err)]: fails the test now unless [err] is nil. *)
Definition require_NoError {S} (err : option error) : Prog S unit :=
  match err with
  | Some e => fun s => (TestFailed e, s)
  | None => ret tt
  end.

(** [logger.Default.Logf]: the log line is not part of the model. *)
Definition Logf {S} (format : string) (args : list string) : Prog S unit := ret tt.

Section Helpers.
Context `{sdk : Sdk}.

(** The store together with the log of SDK requests issued so far. *)
Record State := { world : World; calls : list Request }.

Abbreviation M := (Prog State).

(** A method call [s3Client.Op(ctx, input)] on a client pointer. *)
Definition invoke (s3Client : option Client) (r : Request)
  : M (option (Reply r) * option sdkError) :=
  do c <- deref s3Client ;;
  fun s =>
    let '(res, w') := handle (client_config c) r (world s) in
    (Returned res, {| world := w'; calls := calls s ++ [r] |}).

(** The call [NewAuthenticatedSession(region)]. *)
Definition call_NewAuthenticatedSession (region : string) : M (option Config * option error) :=
  fun s =>
    let '(res, w') := NewAuthenticatedSession region (world s) in
    (Returned res, {| world := w'; calls := calls s |}).

(** [NewS3ClientE] *)
Definition NewS3ClientE (region : string) : M (option Client * option error) :=
  do '(sess, err) <- call_NewAuthenticatedSession region ;;
  match err with
  | Some e => ret (None, Some e)
  | None =>
      do cfg <- deref sess ;;
      ret (Some (NewFromConfig cfg), None)
  end.

(** [NewS3Client] *)
Definition NewS3Client (region : string) : M (option Client) :=
  do '(client, err) <- NewS3ClientE region ;;
  do _ <- require_NoError err ;;
  ret client.

(** [NewS3UploaderE] *)
Definition NewS3UploaderE (region : string) : M (option Uploader * option error) :=
  do '(sess, err) <- call_NewAuthenticatedSession region ;;
  match err with
  | Some e => ret (None, Some e)
  | None =>
      do cfg <- deref sess ;;
      ret (Some (NewUploader (NewFromConfig cfg)), None)
  end.

(** [NewS3Uploader] *)
Definition NewS3Uploader (region : string) : M (option Uploader) :=
  do '(uploader, err) <- NewS3UploaderE region ;;
  do _ <- require_NoError err ;;
  ret uploader.

(** *** FindS3BucketWithTag *)

(** The inner loop [for _, tag := range tagResponse.TagSet]: whether some
    tag satisfies [*tag.Key == key && *tag.Value == value], dereferencing
    the pointers in the order the condition does. *)
Fixpoint FindS3BucketWithTagE_tags (key value : string) (tags : list Tag) : M bool :=
  match tags with
  | [] => ret false
  | tag :: rest =>
      do k <- deref (Key tag) ;;
      if String.eqb k key then
        do v <- deref (Value tag) ;;
        if String.eqb v value then ret true
        else FindS3BucketWithTagE_tags key value rest
      else FindS3BucketWithTagE_tags key value rest
  end.

(** The rest of the body of the outer loop once the error check is passed:
    the scan of [tagResponse.TagSet], returning the bucket's name on a match
    and going on with the next bucket ([next]) otherwise. *)
Definition FindS3BucketWithTagE_scan (bucket : Bucket) (key value : string)
    (tagResponse : option GetBucketTaggingOutput) (next : M (string * option error))
  : M (string * option error) :=
  do tagResponse <- deref tagResponse ;;
  do found <- FindS3BucketWithTagE_tags key value (TagSet tagResponse) ;;
  if found then
    do bucketName <- deref (Name bucket) ;;
    do _ <- Logf "Found S3 bucket %s with tag %s=%s" [bucketName; key; value] ;;
    ret (bucketName, None)
  else next.

(** The outer loop [for _, bucket := range resp.Buckets] and the final
    [return "", nil]. *)
Fixpoint FindS3BucketWithTagE_buckets (s3Client : option Client) (key value : string)
    (buckets : list Bucket) : M (string * option error) :=
  match buckets with
  | [] => ret ("", None)
  | bucket :: rest =>
      do '(tagResponse, err) <- invoke s3Client (GetBucketTagging (Name bucket)) ;;
      match err with
      | Some e =>
          if Contains (Error e) "NoSuchBucket" then
            FindS3BucketWithTagE_buckets s3Client key value rest
          else if negb (Contains (Error e) "AuthorizationHeaderMalformed") &&
                  negb (Contains (Error e) "BucketRegionError") &&
                  negb (Contains (Error e) "NoSuchTagSet") then
            ret ("", Some (ErrSdk e))
          else
            FindS3BucketWithTagE_scan bucket key value tagResponse
              (FindS3BucketWithTagE_buckets s3Client key value rest)
      | None =>
          FindS3BucketWithTagE_scan bucket key value tagResponse
            (FindS3BucketWithTagE_buckets s3Client key value rest)
      end
  end.

(** [FindS3BucketWithTagE] *)
Definition FindS3BucketWithTagE (awsRegion key value : string) : M (string * option error) :=
  do '(s3Client, err) <- NewS3ClientE awsRegion ;;
  match err with
  | Some e => ret ("", Some e)
  | None =>
      do '(resp, err) <- invoke s3Client ListBuckets ;;
      match err with
      | Some e => ret ("", Some (ErrSdk e))
      | None =>
          do resp <- deref resp ;;
          FindS3BucketWithTagE_buckets s3Client key value (Buckets resp)
      end
  end.

(** [FindS3BucketWithTag] *)
Definition FindS3BucketWithTag (awsRegion key value : string) : M string :=
  do '(bucket, err) <- FindS3BucketWithTagE awsRegion key value ;;
  do _ <- require_NoError err ;;
  ret bucket.

(** *** GetS3BucketTags *)

(** [GetS3BucketTagsE]; the result map is [None] for Go's nil map. *)
Definition GetS3BucketTagsE (awsRegion bucket : string)
  : M (option (gmap string string) * option error) :=
  do '(s3Client, err) <- NewS3ClientE awsRegion ;;
  match err with
  | Some e => ret (None, Some e)
  | None =>
      do '(out, err) <- invoke s3Client (GetBucketTagging (Some bucket)) ;;
      match err with
      | Some e => ret (None, Some (ErrSdk e))
      | None =>
          do out <- deref out ;;
          let tags : gmap string string := ∅ in
          let tags :=
            fold_left (fun tags tag => <[ToString (Key tag) := ToString (Value tag)]> tags)
                      (TagSet out) tags in
          ret (Some tags, None)
      end
  end.

(** [GetS3BucketTags] *)
Definition GetS3BucketTags (awsRegion bucket : string) : M (option (gmap string string)) :=
  do '(tags, err) <- GetS3BucketTagsE awsRegion bucket ;;
  do _ <- require_NoError err ;;
  ret tags.

(** *** Object contents *)

(** [GetS3ObjectContentsE] *)
Definition GetS3ObjectContentsE (awsRegion bucket key : string) : M (string * option error) :=
  do '(s3Client, err) <- NewS3ClientE awsRegion ;;
  match err with
  | Some e => ret ("", Some e)
  | None =>
      do '(res, err) <- invoke s3Client (GetObject (Some bucket) (Some key)) ;;
      match err with
      | Some e => ret ("", Some (ErrSdk e))
      | None =>
          do res <- deref res ;;
          (* _, err = buf.ReadFrom(res.Body) *)
          match reader_err (Body res) with
          | Some e => ret ("", Some e)
          | None =>
              let contents := reader_data (Body res) in
              do _ <- Logf "Read contents from s3://%s/%s" [bucket; key] ;;
              ret (contents, None)
          end
      end
  end.

(** [GetS3ObjectContents] *)
Definition GetS3ObjectContents (awsRegion bucket key : string) : M string :=
  do '(contents, err) <- GetS3ObjectContentsE awsRegion bucket key ;;
  do _ <- require_NoError err ;;
  ret contents.

(** [PutS3ObjectContentsE] *)
Definition PutS3ObjectContentsE (awsRegion bucket key : string) (body : Reader)
  : M (option error) :=
  do '(s3Client, err) <- NewS3ClientE awsRegion ;;
  match err with
  | Some e => ret (Some (ErrWrapped "failed to instantiate s3 client: %w" e))
  | None =>
      do '(_, err) <- invoke s3Client (PutObject (String_ptr bucket) (String_ptr key) body) ;;
      ret (ErrSdk <$> err)
  end.

(** [PutS3ObjectContents] *)
Definition PutS3ObjectContents (awsRegion bucket key : string) (body : Reader) : M unit :=
  do err <- PutS3ObjectContentsE awsRegion bucket key body ;;
  require_NoError err.

(** *** Buckets *)

(** [CreateS3BucketE] *)
Definition CreateS3BucketE (region name : string) : M (option error) :=
  do _ <- Logf "Creating bucket %s in %s" [name; region] ;;
  do '(s3Client, err) <- NewS3ClientE region ;;
  match err with
  | Some e => ret (Some e)
  | None =>
      let params := {| cb_Bucket := String_ptr name;
                       cb_ObjectOwnership := ObjectOwnershipObjectWriter;
                       cb_CreateBucketConfiguration := None |} in
      let params :=
        if negb (String.eqb region "us-east-1") then
          {| cb_Bucket := cb_Bucket params;
             cb_ObjectOwnership := cb_ObjectOwnership params;
             cb_CreateBucketConfiguration := Some {| LocationConstraint := region |} |}
        else params in
      do '(_, err) <- invoke s3Client (CreateBucket params) ;;
      ret (ErrSdk <$> err)
  end.

(** [CreateS3Bucket] *)
Definition CreateS3Bucket (region name : string) : M unit :=
  do err <- CreateS3BucketE region name ;;
  require_NoError err.

(** [PutS3BucketPolicyE] *)
Definition PutS3BucketPolicyE (region bucketName policyJSONString : string) : M (option error) :=
  do _ <- Logf "Applying bucket policy for bucket %s in %s" [bucketName; region] ;;
  do '(s3Client, err) <- NewS3ClientE region ;;
  match err with
  | Some e => ret (Some e)
  | None =>
      do '(_, err) <- invoke s3Client
            (PutBucketPolicy (String_ptr bucketName) (String_ptr policyJSONString)) ;;
      ret (ErrSdk <$> err)
  end.

(** [PutS3BucketPolicy] *)
Definition PutS3BucketPolicy (region bucketName policyJSONString : string) : M unit :=
  do err <- PutS3BucketPolicyE region bucketName policyJSONString ;;
  require_NoError err.

(** [PutS3BucketVersioningE] *)
Definition PutS3BucketVersioningE (region bucketName : string) : M (option error) :=
  do _ <- Logf "Creating bucket versioning configuration for bucket %s in %s"
               [bucketName; region] ;;
  do '(s3Client, err) <- NewS3ClientE region ;;
  match err with
  | Some e => ret (Some e)
  | None =>
      do '(_, err) <- invoke s3Client
            (PutBucketVersioning (String_ptr bucketName)
               (Some {| vc_MFADelete := MFADeleteDisabled;
                        vc_Status := BucketVersioningStatusEnabled |})) ;;
      ret (ErrSdk <$> err)
  end.

(** [PutS3BucketVersioning] *)
Definition PutS3BucketVersioning (region bucketName : string) : M unit :=
  do err <- PutS3BucketVersioningE region bucketName ;;
  require_NoError err.

(** [DeleteS3BucketE] *)
Definition DeleteS3BucketE (region name : string) : M (option error) :=
  do _ <- Logf "Deleting bucket %s in %s" [region; name] ;;
  do '(s3Client, err) <- NewS3ClientE region ;;
  match err with
  | Some e => ret (Some e)
  | None =>
      do '(_, err) <- invoke s3Client (DeleteBucket (String_ptr name)) ;;
      ret (ErrSdk <$> err)
  end.

(** [DeleteS3Bucket] *)
Definition DeleteS3Bucket (region name : string) : M unit :=
  do err <- DeleteS3BucketE region name ;;
  require_NoError err.

(** *** EmptyS3Bucket *)

(** How one pass through the body of the [for] loop ends. *)
Inductive LoopExit :=
| LoopReturn (err : option error)             (* a [return] inside the loop *)
| LoopBreak                                   (* [break] *)
| LoopContinue (params : ListObjectVersionsInput). (* the end of the body *)

(** The [ObjectIdentifier]s collected by the two [append] loops. *)
Definition objectsToDelete_of (bucketObjects : ListObjectVersionsOutput) : list ObjectIdentifier :=
  let objectsToDelete : list ObjectIdentifier := [] in
  let objectsToDelete :=
    fold_left (fun acc object =>
                 acc ++ [{| oi_Key := ov_Key object; oi_VersionId := ov_VersionId object |}])
              (Versions bucketObjects) objectsToDelete in
  fold_left (fun acc object =>
               acc ++ [{| oi_Key := dm_Key object; oi_VersionId := dm_VersionId object |}])
            (DeleteMarkers bucketObjects) objectsToDelete.

(** The body of the [for] loop of [EmptyS3BucketE]. *)
Definition EmptyS3BucketE_body (s3Client : option Client) (name : string)
    (params : ListObjectVersionsInput) : M LoopExit :=
  do '(bucketObjects, err) <- invoke s3Client (ListObjectVersions params) ;;
  match err with
  | Some e => ret (LoopReturn (Some (ErrSdk e)))
  | None =>
      do bucketObjects <- deref bucketObjects ;;
      if Nat.eqb (length (Versions bucketObjects)) 0 then
        do _ <- Logf "Bucket %s is already empty" [name] ;;
        ret (LoopReturn None)
      else
        let deleteArray := {| Objects := objectsToDelete_of bucketObjects |} in
        do '(_, err) <- invoke s3Client (DeleteObjects (String_ptr name) (Some deleteArray)) ;;
        match err with
        | Some e => ret (LoopReturn (Some (ErrSdk e)))
        | None =>
            do isTruncated <- deref (IsTruncated bucketObjects) ;;
            if isTruncated then
              let params := {| lov_Bucket := lov_Bucket params;
                               lov_KeyMarker := NextKeyMarker bucketObjects |} in
              do keyMarker <- deref (lov_KeyMarker params) ;;
              do _ <- Logf "Requesting next batch | %s" [keyMarker] ;;
              ret (LoopContinue params)
            else ret LoopBreak
        end
  end.

(** The [for] loop, run for at most [fuel] passes. *)
Fixpoint EmptyS3BucketE_loop (fuel : nat) (s3Client : option Client) (name : string)
    (params : ListObjectVersionsInput) : M LoopExit :=
  match fuel with
  | O => out_of_fuel
  | S fuel' =>
      do exit <- EmptyS3BucketE_body s3Client name params ;;
      match exit with
      | LoopContinue params' => EmptyS3BucketE_loop fuel' s3Client name params'
      | _ => ret exit
      end
  end.

(** [EmptyS3BucketE]; after [break] the function returns the [err] of the
    client construction, which is nil there. *)
Definition EmptyS3BucketE (fuel : nat) (region name : string) : M (option error) :=
  do _ <- Logf "Emptying bucket %s in %s" [name; region] ;;
  do '(s3Client, err) <- NewS3ClientE region ;;
  match err with
  | Some e => ret (Some e)
  | None =>
      let params := {| lov_Bucket := String_ptr name; lov_KeyMarker := None |} in
      do exit <- EmptyS3BucketE_loop fuel s3Client name params ;;
      match exit with
      | LoopReturn r => ret r
      | _ =>
          do _ <- Logf "Bucket %s is now empty" [name] ;;
          ret err
      end
  end.

(** [EmptyS3Bucket] *)
Definition EmptyS3Bucket (fuel : nat) (region name : string) : M unit :=
  do err <- EmptyS3BucketE fuel region name ;;
  require_NoError err.

(** *** Logging, versioning, policy, ownership controls *)

(** [GetS3BucketLoggingTargetE] *)
Definition GetS3BucketLoggingTargetE (awsRegion bucket : string) : M (string * option error) :=
  do '(s3Client, err) <- NewS3ClientE awsRegion ;;
  match err with
  | Some e => ret ("", Some e)
  | None =>
      do '(res, err) <- invoke s3Client (GetBucketLogging (Some bucket)) ;;
      match err with
      | Some e => ret ("", Some (ErrSdk e))
      | None =>
          do res <- deref res ;;
          match LoggingEnabled_ res with
          | None => ret ("", Some (S3AccessLoggingNotEnabledErr bucket awsRegion))
          | Some le => ret (ToString (TargetBucket le), None)
          end
      end
  end.

(** [GetS3BucketLoggingTarget] *)
Definition GetS3BucketLoggingTarget (awsRegion bucket : string) : M string :=
  do '(loggingTarget, err) <- GetS3BucketLoggingTargetE awsRegion bucket ;;
  do _ <- require_NoError err ;;
  ret loggingTarget.

(** [GetS3BucketLoggingTargetPrefixE] *)
Definition GetS3BucketLoggingTargetPrefixE (awsRegion bucket : string)
  : M (string * option error) :=
  do '(s3Client, err) <- NewS3ClientE awsRegion ;;
  match err with
  | Some e => ret ("", Some e)
  | None =>
      do '(res, err) <- invoke s3Client (GetBucketLogging (Some bucket)) ;;
      match err with
      | Some e => ret ("", Some (ErrSdk e))
      | None =>
          do res <- deref res ;;
          match LoggingEnabled_ res with
          | None => ret ("", Some (S3AccessLoggingNotEnabledErr bucket awsRegion))
          | Some le => ret (ToString (TargetPrefix le), None)
          end
      end
  end.

(** [GetS3BucketLoggingTargetPrefix] *)
Definition GetS3BucketLoggingTargetPrefix (awsRegion bucket : string) : M string :=
  do '(loggingObjectTargetPrefix, err) <- GetS3BucketLoggingTargetPrefixE awsRegion bucket ;;
  do _ <- require_NoError err ;;
  ret loggingObjectTargetPrefix.

(** [GetS3BucketVersioningE] *)
Definition GetS3BucketVersioningE (awsRegion bucket : string) : M (string * option error) :=
  do '(s3Client, err) <- NewS3ClientE awsRegion ;;
  match err with
  | Some e => ret ("", Some e)
  | None =>
      do '(res, err) <- invoke s3Client (GetBucketVersioning (Some bucket)) ;;
      match err with
      | Some e => ret ("", Some (ErrSdk e))
      | None =>
          do res <- deref res ;;
          ret (Status res, None)
      end
  end.

(** [GetS3BucketVersioning] *)
Definition GetS3BucketVersioning (awsRegion bucket : string) : M string :=
  do '(versioningStatus, err) <- GetS3BucketVersioningE awsRegion bucket ;;
  do _ <- require_NoError err ;;
  ret versioningStatus.

(** [GetS3BucketPolicyE] *)
Definition GetS3BucketPolicyE (awsRegion bucket : string) : M (string * option error) :=
  do '(s3Client, err) <- NewS3ClientE awsRegion ;;
  match err with
  | Some e => ret ("", Some e)
  | None =>
      do '(res, err) <- invoke s3Client (GetBucketPolicy (Some bucket)) ;;
      match err with
      | Some e => ret ("", Some (ErrSdk e))
      | None =>
          do res <- deref res ;;
          ret (ToString (Policy res), None)
      end
  end.

(** [GetS3BucketPolicy] *)
Definition GetS3BucketPolicy (awsRegion bucket : string) : M string :=
  do '(bucketPolicy, err) <- GetS3BucketPolicyE awsRegion bucket ;;
  do _ <- require_NoError err ;;
  ret bucketPolicy.

(** [GetS3BucketOwnershipControlsE]; the slice is [None] for Go's nil. *)
Definition GetS3BucketOwnershipControlsE (awsRegion bucket : string)
  : M (option (list string) * option error) :=
  do '(s3Client, err) <- NewS3ClientE awsRegion ;;
  match err with
  | Some e => ret (None, Some e)
  | None =>
      do '(out, err) <- invoke s3Client (GetBucketOwnershipControls (Some bucket)) ;;
      match err with
      | Some e => ret (None, Some (ErrSdk e))
      | None =>
          do out <- deref out ;;
          do controls <- deref (OwnershipControls_ out) ;;
          let rules : list string := [] in
          let rules :=
            fold_left (fun rules rule => rules ++ [rule_ObjectOwnership rule])
                      (Rules controls) rules in
          ret (Some rules, None)
      end
  end.

(** [GetS3BucketOwnershipControls] *)
Definition GetS3BucketOwnershipControls (awsRegion bucket : string) : M (option (list string)) :=
  do '(rules, err) <- GetS3BucketOwnershipControlsE awsRegion bucket ;;
  do _ <- require_NoError err ;;
  ret rules.

(** *** Assertions *)

(** [AssertS3BucketExistsE] *)
Definition AssertS3BucketExistsE (region name : string) : M (option error) :=
  do '(s3Client, err) <- NewS3ClientE region ;;
  match err with
  | Some e => ret (Some e)
  | None =>
      do '(_, err) <- invoke s3Client (HeadBucket (String_ptr name)) ;;
      ret (ErrSdk <$> err)
  end.

(** [AssertS3BucketExists] *)
Definition AssertS3BucketExists (region name : string) : M unit :=
  do err <- AssertS3BucketExistsE region name ;;
  require_NoError err.

(** [AssertS3BucketVersioningExistsE] *)
Definition AssertS3BucketVersioningExistsE (region bucketName : string) : M (option error) :=
  do '(status, err) <- GetS3BucketVersioningE region bucketName ;;
  match err with
  | Some e => ret (Some e)
  | None =>
      if String.eqb status "Enabled" then ret None
      else ret (Some (NewBucketVersioningNotEnabledError bucketName region status))
  end.

(** [AssertS3BucketVersioningExists] *)
Definition AssertS3BucketVersioningExists (region bucketName : string) : M unit :=
  do err <- AssertS3BucketVersioningExistsE region bucketName ;;
  require_NoError err.

(** [AssertS3BucketPolicyExistsE] *)
Definition AssertS3BucketPolicyExistsE (region bucketName : string) : M (option error) :=
  do '(policy, err) <- GetS3BucketPolicyE region bucketName ;;
  match err with
  | Some e => ret (Some e)
  | None =>
      if String.eqb policy "" then
        ret (Some (NewNoBucketPolicyError bucketName region policy))
      else ret None
  end.

(** [AssertS3BucketPolicyExists] *)
Definition AssertS3BucketPolicyExists (region bucketName : string) : M unit :=
  do err <- AssertS3BucketPolicyExistsE region bucketName ;;
  require_NoError err.

(** *** The table of paired helpers *)

(** A result of any helper, for statements that range over all of them. *)
Inductive HelperValue :=
| VString (s : string)
| VTags (tags : option (gmap string string))
| VStrings (l : option (list string))
| VClient (c : option Client)
| VUploader (u : option Uploader)
| VNothing.

(** A call of one of the nineteen helper pairs, with its arguments
    ([fuel] bounds the loop of the bucket-emptying pair). *)
Inductive Helper :=
| CallFindS3BucketWithTag (awsRegion key value : string)
| CallGetS3BucketTags (awsRegion bucket : string)
| CallGetS3ObjectContents (awsRegion bucket key : string)
| CallPutS3ObjectContents (awsRegion bucket key : string) (body : Reader)
| CallCreateS3Bucket (region name : string)
| CallPutS3BucketPolicy (region bucketName policyJSONString : string)
| CallPutS3BucketVersioning (region bucketName : string)
| CallDeleteS3Bucket (region name : string)
| CallEmptyS3Bucket (fuel : nat) (region name : string)
| CallGetS3BucketLoggingTarget (awsRegion bucket : string)
| CallGetS3BucketLoggingTargetPrefix (awsRegion bucket : string)
| CallGetS3BucketVersioning (awsRegion bucket : string)
| CallGetS3BucketPolicy (awsRegion bucket : string)
| CallGetS3BucketOwnershipControls (awsRegion bucket : string)
| CallAssertS3BucketExists (region name : string)
| CallAssertS3BucketVersioningExists (region bucketName : string)
| CallAssertS3BucketPolicyExists (region bucketName : string)
| CallNewS3Client (region : string)
| CallNewS3Uploader (region : string).

Definition with_value {A} (inj : A -> HelperValue) (m : M (A * option error))
  : M (HelperValue * option error) :=
  do '(a, err) <- m ;; ret (inj a, err).

Definition without_value (m : M (option error)) : M (HelperValue * option error) :=
  do err <- m ;; ret (VNothing, err).

Definition as_value {A} (inj : A -> HelperValue) (m : M A) : M HelperValue :=
  do a <- m ;; ret (inj a).

(** The error-returning member of each pair. *)
Definition error_returning (h : Helper) : M (HelperValue * option error) :=
  match h with
  | CallFindS3BucketWithTag r k v => with_value VString (FindS3BucketWithTagE r k v)
  | CallGetS3BucketTags r b => with_value VTags (GetS3BucketTagsE r b)
  | CallGetS3ObjectContents r b k => with_value VString (GetS3ObjectContentsE r b k)
  | CallPutS3ObjectContents r b k body => without_value (PutS3ObjectContentsE r b k body)
  | CallCreateS3Bucket r n => without_value (CreateS3BucketE r n)
  | CallPutS3BucketPolicy r b p => without_value (PutS3BucketPolicyE r b p)
  | CallPutS3BucketVersioning r b => without_value (PutS3BucketVersioningE r b)
  | CallDeleteS3Bucket r n => without_value (DeleteS3BucketE r n)
  | CallEmptyS3Bucket fuel r n => without_value (EmptyS3BucketE fuel r n)
  | CallGetS3BucketLoggingTarget r b => with_value VString (GetS3BucketLoggingTargetE r b)
  | CallGetS3BucketLoggingTargetPrefix r b =>
      with_value VString (GetS3BucketLoggingTargetPrefixE r b)
  | CallGetS3BucketVersioning r b => with_value VString (GetS3BucketVersioningE r b)
  | CallGetS3BucketPolicy r b => with_value VString (GetS3BucketPolicyE r b)
  | CallGetS3BucketOwnershipControls r b =>
      with_value VStrings (GetS3BucketOwnershipControlsE r b)
  | CallAssertS3BucketExists r n => without_value (AssertS3BucketExistsE r n)
  | CallAssertS3BucketVersioningExists r b =>
      without_value (AssertS3BucketVersioningExistsE r b)
  | CallAssertS3BucketPolicyExists r b => without_value (AssertS3BucketPolicyExistsE r b)
  | CallNewS3Client r => with_value VClient (NewS3ClientE r)
  | CallNewS3Uploader r => with_value VUploader (NewS3UploaderE r)
  end.

(** The assertion-failing member of each pair. *)
Definition assertion_failing (h : Helper) : M HelperValue :=
  match h with
  | CallFindS3BucketWithTag r k v => as_value VString (FindS3BucketWithTag r k v)
  | CallGetS3BucketTags r b => as_value VTags (GetS3BucketTags r b)
  | CallGetS3ObjectContents r b k => as_value VString (GetS3ObjectContents r b k)
  | CallPutS3ObjectContents r b k body =>
      as_value (fun _ => VNothing) (PutS3ObjectContents r b k body)
  | CallCreateS3Bucket r n => as_value (fun _ => VNothing) (CreateS3Bucket r n)
  | CallPutS3BucketPolicy r b p => as_value (fun _ => VNothing) (PutS3BucketPolicy r b p)
  | CallPutS3BucketVersioning r b => as_value (fun _ => VNothing) (PutS3BucketVersioning r b)
  | CallDeleteS3Bucket r n => as_value (fun _ => VNothing) (DeleteS3Bucket r n)
  | CallEmptyS3Bucket fuel r n => as_value (fun _ => VNothing) (EmptyS3Bucket fuel r n)
  | CallGetS3BucketLoggingTarget r b => as_value VString (GetS3BucketLoggingTarget r b)
  | CallGetS3BucketLoggingTargetPrefix r b =>
      as_value VString (GetS3BucketLoggingTargetPrefix r b)
  | CallGetS3BucketVersioning r b => as_value VString (GetS3BucketVersioning r b)
  | CallGetS3BucketPolicy r b => as_value VString (GetS3BucketPolicy r b)
  | CallGetS3BucketOwnershipControls r b =>
      as_value VStrings (GetS3BucketOwnershipControls r b)
  | CallAssertS3BucketExists r n => as_value (fun _ => VNothing) (AssertS3BucketExists r n)
  | CallAssertS3BucketVersioningExists r b =>
      as_value (fun _ => VNothing) (AssertS3BucketVersioningExists r b)
  | CallAssertS3BucketPolicyExists r b =>
      as_value (fun _ => VNothing) (AssertS3BucketPolicyExists r b)
  | CallNewS3Client r => as_value VClient (NewS3Client r)
  | CallNewS3Uploader r => as_value VUploader (NewS3Uploader r)
  end.

(** The region a helper builds its client for. *)
Definition helper_region (h : Helper) : string :=
  match h with
  | CallFindS3BucketWithTag r _ _ | CallGetS3BucketTags r _ | CallGetS3ObjectContents r _ _
  | CallPutS3ObjectContents r _ _ _ | CallCreateS3Bucket r _ | CallPutS3BucketPolicy r _ _
  | CallPutS3BucketVersioning r _ | CallDeleteS3Bucket r _ | CallEmptyS3Bucket _ r _
  | CallGetS3BucketLoggingTarget r _ | CallGetS3BucketLoggingTargetPrefix r _
  | CallGetS3BucketVersioning r _ | CallGetS3BucketPolicy r _
  | CallGetS3BucketOwnershipControls r _ | CallAssertS3BucketExists r _
  | CallAssertS3BucketVersioningExists r _ | CallAssertS3BucketPolicyExists r _
  | CallNewS3Client r | CallNewS3Uploader r => r
  end.

(** Go's zero value of the result type of each error-returning helper. *)
Definition zero_value (h : Helper) : HelperValue :=
  match h with
  | CallFindS3BucketWithTag _ _ _ | CallGetS3ObjectContents _ _ _
  | CallGetS3BucketLoggingTarget _ _ | CallGetS3BucketLoggingTargetPrefix _ _
  | CallGetS3BucketVersioning _ _ | CallGetS3BucketPolicy _ _ => VString ""
  | CallGetS3BucketTags _ _ => VTags None
  | CallGetS3BucketOwnershipControls _ _ => VStrings None
  | CallNewS3Client _ => VClient None
  | CallNewS3Uploader _ => VUploader None
  | _ => VNothing
  end.

End Helpers.

Arguments State {sdk}.
Arguments Build_State {sdk} _ _.

(** ** An in-memory object store

    A small instance of [Sdk] on which the helpers run: buckets with their
    tag sets and their object versions and delete markers, listed in pages of
    [page_size] entries in key order.  As in the SDK, a failed operation
    hands back a nil output next to the error. *)
Module Mem.

Record Entry := { entry_key : string; entry_version : string; entry_is_delete_marker : bool }.

Record BucketState := {
  bucket_name : string;
  bucket_tags : list Tag;
  bucket_entries : list Entry
}.

Record Store := {
  buckets : list BucketState;
  page_size : nat;
  credentials : bool
}.

Definition find_bucket (name : option string) (st : Store) : option BucketState :=
  match name with
  | Some n => find (fun b => String.eqb (bucket_name b) n) (buckets st)
  | None => None
  end.

Definition update_bucket (b' : BucketState) (st : Store) : Store :=
  {| buckets := map (fun b => if String.eqb (bucket_name b) (bucket_name b') then b' else b)
                    (buckets st);
     page_size := page_size st;
     credentials := credentials st |}.

Definition after_marker (marker : option string) (e : Entry) : bool :=
  match marker with
  | Some k => String.ltb k (entry_key e)
  | None => true
  end.

Definition list_versions (params : ListObjectVersionsInput) (b : BucketState) (n : nat)
  : ListObjectVersionsOutput :=
  let pending := filter (fun e => after_marker (lov_KeyMarker params) e) (bucket_entries b) in
  let page := firstn n pending in
  let truncated := Nat.ltb n (length pending) in
  {| Versions :=
       map (fun e => {| ov_Key := Some (entry_key e); ov_VersionId := Some (entry_version e) |})
           (filter (fun e => negb (entry_is_delete_marker e)) page);
     DeleteMarkers :=
       map (fun e => {| dm_Key := Some (entry_key e); dm_VersionId := Some (entry_version e) |})
           (filter (fun e => entry_is_delete_marker e) page);
     IsTruncated := Some truncated;
     NextKeyMarker :=
       if truncated then entry_key <$> last page else None |}.

Definition identifies (o : ObjectIdentifier) (e : Entry) : bool :=
  match oi_Key o, oi_VersionId o with
  | Some k, Some v => String.eqb k (entry_key e) && String.eqb v (entry_version e)
  | _, _ => false
  end.

Definition delete_objects (d : option Delete) (b : BucketState) : BucketState :=
  let objs := match d with Some d => Objects d | None => [] end in
  {| bucket_name := bucket_name b;
     bucket_tags := bucket_tags b;
     bucket_entries :=
       filter (fun e => negb (existsb (fun o => identifies o e) objs)) (bucket_entries b) |}.

Definition no_such_bucket : sdkError := SdkError "NoSuchBucket: The specified bucket does not exist".

Definition refuse {A} (msg : string) (st : Store) : (option A * option sdkError) * Store :=
  ((None, Some (SdkError msg)), st).

Definition on_bucket {A} (name : option string) (st : Store)
    (k : BucketState -> (option A * option sdkError) * Store)
  : (option A * option sdkError) * Store :=
  match find_bucket name st with
  | Some b => k b
  | None => ((None, Some no_such_bucket), st)
  end.

Definition serve (_ : unit) (r : Request) (st : Store)
  : (option (Reply r) * option sdkError) * Store :=
  match r return (option (Reply r) * option sdkError) * Store with
  | ListBuckets =>
      ((Some {| Buckets := map (fun b => {| Name := Some (bucket_name b) |}) (buckets st) |},
        None), st)
  | GetBucketTagging name =>
      on_bucket name st (fun b =>
        match bucket_tags b with
        | [] => refuse "NoSuchTagSet: The TagSet does not exist" st
        | tags => ((Some {| TagSet := tags |}, None), st)
        end)
  | GetObject name key => on_bucket name st (fun _ => refuse "NoSuchKey" st)
  | PutObject name _ _ => on_bucket name st (fun _ => ((Some tt, None), st))
  | CreateBucket params =>
      match find_bucket (cb_Bucket params) st, cb_Bucket params with
      | None, Some n =>
          ((Some tt, None),
           {| buckets := buckets st ++
                         [{| bucket_name := n; bucket_tags := []; bucket_entries := [] |}];
              page_size := page_size st;
              credentials := credentials st |})
      | _, _ => refuse "BucketAlreadyExists" st
      end
  | PutBucketPolicy name _ => on_bucket name st (fun _ => ((Some tt, None), st))
  | PutBucketVersioning name _ => on_bucket name st (fun _ => ((Some tt, None), st))
  | DeleteBucket name =>
      on_bucket name st (fun b =>
        ((Some tt, None),
         {| buckets := filter (fun b' => negb (String.eqb (bucket_name b') (bucket_name b)))
                              (buckets st);
            page_size := page_size st;
            credentials := credentials st |}))
  | ListObjectVersions params =>
      on_bucket (lov_Bucket params) st (fun b =>
        ((Some (list_versions params b (page_size st)), None), st))
  | DeleteObjects name d =>
      on_bucket name st (fun b => ((Some tt, None), update_bucket (delete_objects d b) st))
  | GetBucketLogging name =>
      on_bucket name st (fun _ => ((Some {| LoggingEnabled_ := None |}, None), st))
  | GetBucketVersioning name =>
      on_bucket name st (fun _ => ((Some {| Status := "" |}, None), st))
  | GetBucketPolicy name => on_bucket name st (fun _ => refuse "NoSuchBucketPolicy" st)
  | GetBucketOwnershipControls name =>
      on_bucket name st (fun _ =>
        ((Some {| OwnershipControls_ :=
                    Some {| Rules := [{| rule_ObjectOwnership := "ObjectWriter" |}] |} |},
          None), st))
  | HeadBucket name => on_bucket name st (fun _ => ((Some tt, None), st))
  end.

Definition new_session (region : string) (st : Store)
  : (option unit * option error) * Store :=
  if credentials st then ((Some tt, None), st)
  else ((None, Some (ErrSdk (SdkError "NoCredentialProviders"))), st).

#[export] Instance sdk : Sdk := {|
  World := Store;
  Config := unit;
  NewAuthenticatedSession := new_session;
  handle := serve
|}.

(** A state of a run: the store and the requests sent so far. *)
Definition state (st : Store) (log : list Request) : State := {| world := st; calls := log |}.

(** A run starts with an empty request log. *)
Definition start (st : Store) : State := state st [].

Definition entries_of (name : string) (s : State) : list Entry :=
  match find_bucket (Some name) (world s) with
  | Some b => bucket_entries b
  | None => []
  end.

End Mem.

(** ** Stores used as concrete inputs *)

Module Stores.
Import Mem.

(** Two tagged buckets. *)
Definition two_buckets : Store :=
  {| buckets :=
       [ {| bucket_name := "alpha";
            bucket_tags := [ {| Key := Some "env"; Value := Some "dev" |} ];
            bucket_entries := [] |};
         {| bucket_name := "beta";
            bucket_tags := [ {| Key := Some "env"; Value := Some "prod" |};
                             {| Key := Some "team"; Value := Some "infra" |};
                             {| Key := Some "env"; Value := Some "stage" |} ];
            bucket_entries := [] |} ];
     page_size := 1000;
     credentials := true |}.

(** A bucket without tags. *)
Definition untagged_bucket : Store :=
  {| buckets := [ {| bucket_name := "plain"; bucket_tags := []; bucket_entries := [] |} ];
     page_size := 1000;
     credentials := true |}.

(** A bucket whose only content is a delete marker. *)
Definition lone_delete_marker : Store :=
  {| buckets :=
       [ {| bucket_name := "logs";
            bucket_tags := [];
            bucket_entries :=
              [ {| entry_key := "app.log"; entry_version := "3HL4kqtJvjVBH40Nrjfkd";
                   entry_is_delete_marker := true |} ] |} ];
     page_size := 1000;
     credentials := true |}.

(** A bucket with three versions, listed two at a time. *)
Definition three_versions : Store :=
  {| buckets :=
       [ {| bucket_name := "data";
            bucket_tags := [];
            bucket_entries :=
              [ {| entry_key := "a"; entry_version := "1"; entry_is_delete_marker := false |};
                {| entry_key := "b"; entry_version := "1"; entry_is_delete_marker := false |};
                {| entry_key := "c"; entry_version := "1"; entry_is_delete_marker := false |} ] |} ];
     page_size := 2;
     credentials := true |}.

End Stores.

(** ** A store that answers every request

    A second instance of [Sdk], without state: one bucket, "site", with
    tags, logging, versioning, a policy and ownership controls in place, and
    an object body that reads in full or, for the key "torn", breaks off. *)
Module Configured.

Definition serve (_ : unit) (r : Request) (w : unit)
  : (option (Reply r) * option sdkError) * unit :=
  match r return (option (Reply r) * option sdkError) * unit with
  | ListBuckets => ((Some {| Buckets := [ {| Name := Some "site" |} ] |}, None), w)
  | GetBucketTagging _ =>
      ((Some {| TagSet := [ {| Key := Some "env"; Value := Some "prod" |};
                            {| Key := Some "team"; Value := Some "web" |} ] |}, None), w)
  | GetObject _ key =>
      ((Some {| Body :=
                  if String.eqb (ToString key) "torn" then
                    {| reader_data := "<ht";
                       reader_err := Some (ErrSdk (SdkError "unexpected EOF")) |}
                  else {| reader_data := "<html></html>"; reader_err := None |} |},
        None), w)
  | ListObjectVersions _ =>
      ((Some {| Versions := []; DeleteMarkers := []; IsTruncated := Some false;
                NextKeyMarker := None |}, None), w)
  | GetBucketLogging _ =>
      ((Some {| LoggingEnabled_ :=
                  Some {| TargetBucket := Some "site-logs"; TargetPrefix := None |} |},
        None), w)
  | GetBucketVersioning _ => ((Some {| Status := "Enabled" |}, None), w)
  | GetBucketPolicy _ => ((Some {| Policy := Some "{Version: 2012-10-17}" |}, None), w)
  | GetBucketOwnershipControls _ =>
      ((Some {| OwnershipControls_ :=
                  Some {| Rules := [ {| rule_ObjectOwnership := "BucketOwnerEnforced" |} ] |} |},
        None), w)
  | PutObject _ _ _ | CreateBucket _ | PutBucketPolicy _ _ | PutBucketVersioning _ _
  | DeleteBucket _ | DeleteObjects _ _ | HeadBucket _ => ((Some tt, None), w)
  end.

Definition sdk : Sdk := {|
  World := unit;
  Config := unit;
  NewAuthenticatedSession := fun _ w => ((Some tt, None), w);
  handle := serve
|}.

Definition start : @State sdk := @Build_State sdk tt [].

End Configured.

(** A store of [Mem] for which no client can be built. *)
Definition locked_out : Mem.Store :=
  {| Mem.buckets := []; Mem.page_size := 1000; Mem.credentials := false |}.

(** A store of [Mem] with a tagged bucket and an untagged one. *)
Definition tagged_and_untagged : Mem.Store :=
  {| Mem.buckets :=
       [ {| Mem.bucket_name := "alpha";
            Mem.bucket_tags := [ {| Key := Some "env"; Value := Some "dev" |} ];
            Mem.bucket_entries := [] |};
         {| Mem.bucket_name := "plain"; Mem.bucket_tags := []; Mem.bucket_entries := [] |} ];
     Mem.page_size := 1000;
     Mem.credentials := true |}.

(** ** A store whose bulk deletes fail

    A third instance of [Sdk], without state: every listing shows one
    version, "a", and reports more to come after it, and every
    [DeleteObjects] fails with a request error, as it does when the
    connection drops. *)
Module Unreachable.

Definition request_error : sdkError := SdkError "RequestError: send request failed".

Definition serve (_ : unit) (r : Request) (w : unit)
  : (option (Reply r) * option sdkError) * unit :=
  match r return (option (Reply r) * option sdkError) * unit with
  | ListObjectVersions _ =>
      ((Some {| Versions := [ {| ov_Key := Some "a"; ov_VersionId := Some "1" |} ];
                DeleteMarkers := [];
                IsTruncated := Some true;
                NextKeyMarker := Some "a" |}, None), w)
  | _ => ((None, Some request_error), w)
  end.

Definition sdk : Sdk := {|
  World := unit;
  Config := unit;
  NewAuthenticatedSession := fun _ w => ((Some tt, None), w);
  handle := serve
|}.

Definition start : @State sdk := @Build_State sdk tt [].

End Unreachable.

(** ** Vocabulary of the statements *)

Section Vocabulary.
Context `{sdk : Sdk}.

(** The storage request of the helpers that issue one request per call;
    [None] for the two helpers with a loop and the two constructors. *)
Definition sdk_request (h : Helper) : option Request :=
  match h with
  | CallGetS3BucketTags _ b => Some (GetBucketTagging (Some b))
  | CallGetS3ObjectContents _ b k => Some (GetObject (Some b) (Some k))
  | CallPutS3ObjectContents _ b k body => Some (PutObject (Some b) (Some k) body)
  | CallCreateS3Bucket r n =>
      Some (CreateBucket
              {| cb_Bucket := Some n;
                 cb_ObjectOwnership := "ObjectWriter";
                 cb_CreateBucketConfiguration :=
                   if String.eqb r "us-east-1" then None
                   else Some {| LocationConstraint := r |} |})
  | CallPutS3BucketPolicy _ b p => Some (PutBucketPolicy (Some b) (Some p))
  | CallPutS3BucketVersioning _ b =>
      Some (PutBucketVersioning (Some b)
              (Some {| vc_MFADelete := "Disabled"; vc_Status := "Enabled" |}))
  | CallDeleteS3Bucket _ n => Some (DeleteBucket (Some n))
  | CallGetS3BucketLoggingTarget _ b | CallGetS3BucketLoggingTargetPrefix _ b =>
      Some (GetBucketLogging (Some b))
  | CallGetS3BucketVersioning _ b | CallAssertS3BucketVersioningExists _ b =>
      Some (GetBucketVersioning (Some b))
  | CallGetS3BucketPolicy _ b | CallAssertS3BucketPolicyExists _ b =>
      Some (GetBucketPolicy (Some b))
  | CallGetS3BucketOwnershipControls _ b => Some (GetBucketOwnershipControls (Some b))
  | CallAssertS3BucketExists _ n => Some (HeadBucket (Some n))
  | CallFindS3BucketWithTag _ _ _ | CallEmptyS3Bucket _ _ _
  | CallNewS3Client _ | CallNewS3Uploader _ => None
  end.

(** A program that never stops the test: none of its runs ends in
    [TestFailed]. *)
Definition test_failure_free {A} (m : Prog State A) : Prop :=
  forall s e, fst (m s) <> TestFailed e.

(** The pair a tag contributes to the map of [GetS3BucketTagsE]. *)
Definition tag_key (tag : Tag) : string := ToString (Key tag).
Definition tag_value (tag : Tag) : string := ToString (Value tag).

(** [k] maps to [v] in a tag set read front to back: some tag has key [k]
    and value [v], and no later tag has key [k]. *)
Definition last_binding (tagset : list Tag) (k v : string) : Prop :=
  exists before tag after,
    tagset = before ++ tag :: after /\
    tag_key tag = k /\ tag_value tag = v /\
    Forall (fun later => tag_key later <> k) after.

(** The identifiers of everything a listing shows: its versions, then its
    delete markers. *)
Definition listed_identifiers (listing : ListObjectVersionsOutput) : list ObjectIdentifier :=
  map (fun v => {| oi_Key := ov_Key v; oi_VersionId := ov_VersionId v |}) (Versions listing) ++
  map (fun d => {| oi_Key := dm_Key d; oi_VersionId := dm_VersionId d |}) (DeleteMarkers listing).

(** The bulk delete request for a listing of bucket [name]. *)
Definition bulk_delete (name : string) (listing : ListObjectVersionsOutput) : Request :=
  DeleteObjects (Some name) (Some {| Objects := listed_identifiers listing |}).

(** The request for the page after a truncated listing. *)
Definition next_page (params : ListObjectVersionsInput) (k : string) : ListObjectVersionsInput :=
  {| lov_Bucket := lov_Bucket params; lov_KeyMarker := Some k |}.

(** The chain of listings that starts with request [params] in store [w]
    comes to an end: a listing fails, or shows no versions, or is not
    truncated, or its bulk delete fails; or it is truncated and the chain
    that starts at its [NextKeyMarker], in the store after the bulk delete,
    comes to an end. *)
Inductive ChainEnds (cfg : Config) (name : string)
  : World -> ListObjectVersionsInput -> Prop :=
| chain_listing_fails w params out e w1 :
    handle cfg (ListObjectVersions params) w = (out, Some e, w1) ->
    ChainEnds cfg name w params
| chain_no_versions w params listing w1 :
    handle cfg (ListObjectVersions params) w = (Some listing, None, w1) ->
    Versions listing = [] ->
    ChainEnds cfg name w params
| chain_delete_fails w params listing w1 out e w2 :
    handle cfg (ListObjectVersions params) w = (Some listing, None, w1) ->
    handle cfg (bulk_delete name listing) w1 = (out, Some e, w2) ->
    ChainEnds cfg name w params
| chain_not_truncated w params listing w1 out w2 :
    handle cfg (ListObjectVersions params) w = (Some listing, None, w1) ->
    handle cfg (bulk_delete name listing) w1 = (out, None, w2) ->
    IsTruncated listing = Some false ->
    ChainEnds cfg name w params
| chain_truncated w params listing w1 out w2 k :
    handle cfg (ListObjectVersions params) w = (Some listing, None, w1) ->
    handle cfg (bulk_delete name listing) w1 = (out, None, w2) ->
    IsTruncated listing = Some true ->
    NextKeyMarker listing = Some k ->
    ChainEnds cfg name w2 (next_page params k) ->
    ChainEnds cfg name w params.

(** The two classes of [GetBucketTagging] errors [FindS3BucketWithTagE]
    does not return: those on which it skips the bucket, and those it goes
    past to the scan of the tag set. *)
Definition skipped (e : sdkError) : bool := Contains (Error e) "NoSuchBucket".
Definition tolerated (e : sdkError) : bool :=
  Contains (Error e) "AuthorizationHeaderMalformed" ||
  Contains (Error e) "BucketRegionError" ||
  Contains (Error e) "NoSuchTagSet".

(** The tagging request for a listed bucket. *)
Definition tagging_request (bucket : Bucket) : Request := GetBucketTagging (Name bucket).

(** The first request of [EmptyS3BucketE] for bucket [name]. *)
Definition first_page (name : string) : ListObjectVersionsInput :=
  {| lov_Bucket := Some name; lov_KeyMarker := None |}.

(** The sentence "every error-returning helper issues exactly one storage
    SDK call", read over all helpers and all states of this SDK. *)
Definition one_request_per_helper : Prop :=
  forall (h : Helper) (s : State),
    exists req, calls (snd (error_returning h s)) = calls s ++ [req].

(** The tag can be read and is not the pair [key]=[value]. *)
Definition other_tag (key value : string) (tag : Tag) : bool :=
  match Key tag, Value tag with
  | Some k, Some v => negb (String.eqb k key && String.eqb v value)
  | _, _ => false
  end.

(** A tagging reply that shows a bucket without the pair [key]=[value]: a
    tag set in which no tag is that pair, or the report that the bucket is
    gone. *)
Definition without_tag_pair (key value : string)
    (reply : option GetBucketTaggingOutput * option sdkError) : bool :=
  match reply with
  | (Some out, None) => forallb (other_tag key value) (TagSet out)
  | (_, Some e) => skipped e
  | (None, None) => false
  end.

(** No listed bucket carries the pair, going by the replies of the store
    as the buckets are asked in turn from store [w]. *)
Fixpoint no_bucket_carries (cfg : Config) (key value : string) (buckets : list Bucket)
    (w : World) : Prop :=
  match buckets with
  | [] => True
  | bucket :: rest =>
      without_tag_pair key value (fst (handle cfg (tagging_request bucket) w)) = true /\
      no_bucket_carries cfg key value rest (snd (handle cfg (tagging_request bucket) w))
  end.

(** The state after the tagging requests for [buckets] have been sent in
    turn from state [s]. *)
Fixpoint asked (cfg : Config) (buckets : list Bucket) (s : State) : State :=
  match buckets with
  | [] => s
  | bucket :: rest =>
      asked cfg rest
        {| world := snd (handle cfg (tagging_request bucket) (world s));
           calls := calls s ++ [tagging_request bucket] |}
  end.

(** A tag set that shows the pair [key]=[value]: one of its tags is the
    pair, and the tags before it can be read and are other pairs. *)
Definition carries_pair (key value : string) (tagset : list Tag) : Prop :=
  exists before tag after,
    tagset = before ++ tag :: after /\
    forallb (other_tag key value) before = true /\
    Key tag = Some key /\ Value tag = Some value.

(** The requests that change the store. *)
Definition mutating (r : Request) : bool :=
  match r with
  | PutObject _ _ _ | CreateBucket _ | PutBucketPolicy _ _ | PutBucketVersioning _ _
  | DeleteBucket _ | DeleteObjects _ _ => true
  | _ => false
  end.

(** The helpers that find, get or assert something, and the constructors. *)
Definition reading_helper (h : Helper) : bool :=
  match h with
  | CallPutS3ObjectContents _ _ _ _ | CallCreateS3Bucket _ _ | CallPutS3BucketPolicy _ _ _
  | CallPutS3BucketVersioning _ _ | CallDeleteS3Bucket _ _ | CallEmptyS3Bucket _ _ _ => false
  | _ => true
  end.

(** A request of the emptying of bucket [name]: a listing of that bucket, or
    a bulk delete in that bucket that names at least one object. *)
Definition empties (name : string) (r : Request) : Prop :=
  match r with
  | ListObjectVersions params => lov_Bucket params = Some name
  | DeleteObjects bucket (Some d) => bucket = Some name /\ Objects d <> []
  | _ => False
  end.

(** The error a helper returns when its client cannot be built on [e]. *)
Definition client_error (h : Helper) (e : error) : error :=
  match h with
  | CallPutS3ObjectContents _ _ _ _ => ErrWrapped "failed to instantiate s3 client: %w" e
  | _ => e
  end.

(** The run of the loop of the emptying of bucket [name] that starts with
    request [params] in store [w], told page by page: the requests it
    sends, the error value it ends with, and the store it leaves.  A
    listing that fails ends the run with its error; a listing without
    versions ends it with nil; otherwise one bulk delete names everything
    listed, and a delete that fails ends the run with its error; after a
    delete that succeeds the run ends with nil when the listing is not
    truncated, and goes on from the listing's [NextKeyMarker] when it is. *)
Inductive Pagination (cfg : Config) (name : string)
  : World -> ListObjectVersionsInput -> list Request -> option error -> World -> Prop :=
| page_listing_fails w params out e w1 :
    handle cfg (ListObjectVersions params) w = (out, Some e, w1) ->
    Pagination cfg name w params [ListObjectVersions params] (Some (ErrSdk e)) w1
| page_without_versions w params listing w1 :
    handle cfg (ListObjectVersions params) w = (Some listing, None, w1) ->
    Versions listing = [] ->
    Pagination cfg name w params [ListObjectVersions params] None w1
| page_delete_fails w params listing w1 out e w2 :
    handle cfg (ListObjectVersions params) w = (Some listing, None, w1) ->
    Versions listing <> [] ->
    handle cfg (bulk_delete name listing) w1 = (out, Some e, w2) ->
    Pagination cfg name w params
      [ListObjectVersions params; bulk_delete name listing] (Some (ErrSdk e)) w2
| page_last w params listing w1 out w2 :
    handle cfg (ListObjectVersions params) w = (Some listing, None, w1) ->
    Versions listing <> [] ->
    handle cfg (bulk_delete name listing) w1 = (out, None, w2) ->
    IsTruncated listing = Some false ->
    Pagination cfg name w params
      [ListObjectVersions params; bulk_delete name listing] None w2
| page_next w params listing w1 out w2 k reqs r w' :
    handle cfg (ListObjectVersions params) w = (Some listing, None, w1) ->
    Versions listing <> [] ->
    handle cfg (bulk_delete name listing) w1 = (out, None, w2) ->
    IsTruncated listing = Some true ->
    NextKeyMarker listing = Some k ->
    Pagination cfg name w2 (next_page params k) reqs r w' ->
    Pagination cfg name w params
      (ListObjectVersions params :: bulk_delete name listing :: reqs) r w'.

(** The sentence "after the bulk delete the loop continues with KeyMarker
    set to the listing's NextKeyMarker when the listing reports IsTruncated
    true", read over all stores of this SDK: when the first listing shows
    versions and is truncated, a run of at least two passes asks for the
    page after its [NextKeyMarker]. *)
Definition truncated_listing_continues : Prop :=
  forall (region name : string) (s : State) cfg w1 listing w2 (fuel : nat),
    NewAuthenticatedSession region (world s) = (Some cfg, None, w1) ->
    handle cfg (ListObjectVersions (first_page name)) w1 = (Some listing, None, w2) ->
    Versions listing <> [] ->
    IsTruncated listing = Some true ->
    In (ListObjectVersions {| lov_Bucket := Some name;
                              lov_KeyMarker := NextKeyMarker listing |})
       (calls (snd (EmptyS3BucketE (S (S fuel)) region name s))).

End Vocabulary.

(** ** Basic facts about the monad *)

Section MonadFacts.
Context `{sdk : Sdk}.

Lemma free_ret {A} (a : A) : test_failure_free (ret a).
Proof. intros s e. discriminate. Qed.

Lemma free_panic {A} : test_failure_free (@panic State A).
Proof. intros s e. discriminate. Qed.

Lemma free_out_of_fuel {A} : test_failure_free (@out_of_fuel State A).
Proof. intros s e. discriminate. Qed.

Lemma free_deref {A} (p : option A) : test_failure_free (deref p).
Proof. destruct p; [apply free_ret | apply free_panic]. Qed.

Lemma free_Logf format args : test_failure_free (Logf format args).
Proof. apply free_ret. Qed.

Lemma free_bind {A B} (m : Prog State A) (f : A -> Prog State B) :
  test_failure_free m -> (forall a, test_failure_free (f a)) ->
  test_failure_free (bind m f).
Proof.
  intros Hm Hf s e. unfold bind.
  specialize (Hm s). destruct (m s) as [[a| |e'|] s']; simpl in *; try discriminate.
  - apply Hf.
  - intros _. apply (Hm e'). reflexivity.
Qed.

Lemma free_invoke c r : test_failure_free (invoke c r).
Proof.
  unfold invoke. apply free_bind; [apply free_deref|].
  intros a s e. destruct (handle (client_config a) r (world s)). discriminate.
Qed.

Lemma free_call_NewAuthenticatedSession region :
  test_failure_free (call_NewAuthenticatedSession region).
Proof.
  intros s e. unfold call_NewAuthenticatedSession.
  destruct (NewAuthenticatedSession region (world s)). discriminate.
Qed.

(** Decomposes a program built from the primitives into its parts. *)
Ltac free_step :=
  first
    [ apply free_ret | apply free_panic | apply free_out_of_fuel | apply free_deref
    | apply free_Logf | apply free_invoke | apply free_call_NewAuthenticatedSession
    | assumption
    | apply free_bind; [| intros ?]
    | match goal with
      | |- test_failure_free (match ?x with _ => _ end) => destruct x
      | |- test_failure_free (let _ := _ in _) => cbv zeta
      end ].
Ltac free := repeat free_step.

Lemma free_NewS3ClientE region : test_failure_free (NewS3ClientE region).
Proof. unfold NewS3ClientE. free. Qed.

Lemma free_NewS3UploaderE region : test_failure_free (NewS3UploaderE region).
Proof. unfold NewS3UploaderE. free. Qed.

Lemma free_FindS3BucketWithTagE_tags key value tags :
  test_failure_free (FindS3BucketWithTagE_tags key value tags).
Proof. induction tags as [|tag rest IH]; cbn [FindS3BucketWithTagE_tags]; free. Qed.

Lemma free_FindS3BucketWithTagE_buckets c key value buckets :
  test_failure_free (FindS3BucketWithTagE_buckets c key value buckets).
Proof.
  induction buckets as [|bucket rest IH]; cbn [FindS3BucketWithTagE_buckets]; [free|].
  pose proof (free_FindS3BucketWithTagE_tags key value) as Htags.
  unfold FindS3BucketWithTagE_scan. free; apply Htags.
Qed.

Lemma free_EmptyS3BucketE_body c name params :
  test_failure_free (EmptyS3BucketE_body c name params).
Proof. unfold EmptyS3BucketE_body. free. Qed.

Lemma free_EmptyS3BucketE_loop fuel c name params :
  test_failure_free (EmptyS3BucketE_loop fuel c name params).
Proof.
  revert params. induction fuel as [|fuel IH]; intros params;
    cbn [EmptyS3BucketE_loop]; [free|].
  apply free_bind; [apply free_EmptyS3BucketE_body|].
  intros [r| |params']; free. apply IH.
Qed.

Lemma free_error_returning h : test_failure_free (error_returning h).
Proof.
  pose proof free_NewS3ClientE as Hc.
  pose proof free_NewS3UploaderE as Hu.
  pose proof free_FindS3BucketWithTagE_buckets as Hf.
  pose proof free_EmptyS3BucketE_loop as Hl.
  destruct h; cbn [error_returning];
    unfold with_value, without_value,
      FindS3BucketWithTagE, GetS3BucketTagsE, GetS3ObjectContentsE, PutS3ObjectContentsE,
      CreateS3BucketE, PutS3BucketPolicyE, PutS3BucketVersioningE, DeleteS3BucketE,
      EmptyS3BucketE, GetS3BucketLoggingTargetE, GetS3BucketLoggingTargetPrefixE,
      AssertS3BucketExistsE, AssertS3BucketVersioningExistsE, AssertS3BucketPolicyExistsE,
      GetS3BucketVersioningE, GetS3BucketPolicyE, GetS3BucketOwnershipControlsE;
    free; first [apply Hc | apply Hu | apply Hf | apply Hl].
Qed.

End MonadFacts.

(** ** Paired helpers *)

Section Pairs.
Context `{sdk : Sdk}.

(** What [require.NoError] makes of the outcome of an error-returning helper. *)
Lemma assertion_failing_unfold (h : Helper) (s : State) :
  assertion_failing h s =
  match error_returning h s with
  | (Returned (v, None), s') => (Returned v, s')
  | (Returned (_, Some e), s') => (TestFailed e, s')
  | (Panicked, s') => (Panicked, s')
  | (TestFailed e, s') => (TestFailed e, s')
  | (OutOfFuel, s') => (OutOfFuel, s')
  end.
Proof.
  destruct h; cbn [assertion_failing error_returning];
    unfold as_value, with_value, without_value,
      FindS3BucketWithTag, GetS3BucketTags, GetS3ObjectContents, PutS3ObjectContents,
      CreateS3Bucket, PutS3BucketPolicy, PutS3BucketVersioning, DeleteS3Bucket,
      EmptyS3Bucket, GetS3BucketLoggingTarget, GetS3BucketLoggingTargetPrefix,
      GetS3BucketVersioning, GetS3BucketPolicy, GetS3BucketOwnershipControls,
      AssertS3BucketExists, AssertS3BucketVersioningExists, AssertS3BucketPolicyExists,
      NewS3Client, NewS3Uploader, bind;
    match goal with
    | |- context [match ?m s with _ => _ end] => destruct (m s) as [[r| |e|] s']
    end; try reflexivity;
    repeat match goal with
           | r : (_ * _)%type |- _ => destruct r
           | r : option error |- _ => destruct r
           end; reflexivity.
Qed.

(** C2. Each assertion-failing helper runs exactly its error-returning
    twin (same store, same SDK requests); it fails the test if and only if
    the twin returned a non-nil error, and it returns a value if and only
    if the twin returned that value with a nil error. *)
Theorem assertion_failing_wraps_twin (h : Helper) (s : State) :
  snd (assertion_failing h s) = snd (error_returning h s) /\
  (forall e, fst (assertion_failing h s) = TestFailed e <->
             exists v, fst (error_returning h s) = Returned (v, Some e)) /\
  (forall v, fst (assertion_failing h s) = Returned v <->
             fst (error_returning h s) = Returned (v, None)).
Proof.
  rewrite assertion_failing_unfold.
  pose proof (free_error_returning h s) as Hfree.
  destruct (error_returning h s) as [[[v [e|]]| |e|] s']; cbn [fst snd] in *.
  - split; [reflexivity|]. split.
    + intros e'. split.
      * intros [= ->]. exists v. reflexivity.
      * intros [v' [= _ ->]]. reflexivity.
    + intros v'. split; discriminate.
  - split; [reflexivity|]. split.
    + intros e'. split; [discriminate | intros [v' [=]]].
    + intros v'. split; intros [= ->]; reflexivity.
  - split; [reflexivity|]. split.
    + intros e'. split; [discriminate | intros [v' [=]]].
    + intros v'. split; discriminate.
  - exfalso. apply (Hfree e). reflexivity.
  - split; [reflexivity|]. split.
    + intros e'. split; [discriminate | intros [v' [=]]].
    + intros v'. split; discriminate.
Qed.

End Pairs.

(** ** Running the helpers *)

Section Runs.
Context `{sdk : Sdk}.

Lemma NewS3ClientE_ok region s cfg w1 :
  NewAuthenticatedSession region (world s) = (Some cfg, None, w1) ->
  NewS3ClientE region s =
  (Returned (Some (NewFromConfig cfg), None), {| world := w1; calls := calls s |}).
Proof.
  intros Hs. unfold NewS3ClientE, call_NewAuthenticatedSession, bind. rewrite Hs. reflexivity.
Qed.

Lemma NewS3ClientE_error region s sess e w1 :
  NewAuthenticatedSession region (world s) = (sess, Some e, w1) ->
  NewS3ClientE region s = (Returned (None, Some e), {| world := w1; calls := calls s |}).
Proof.
  intros Hs. unfold NewS3ClientE, call_NewAuthenticatedSession, bind. rewrite Hs. reflexivity.
Qed.

Lemma invoke_run cfg r s :
  invoke (Some (NewFromConfig cfg)) r s =
  (Returned (fst (handle cfg r (world s))),
   {| world := snd (handle cfg r (world s)); calls := calls s ++ [r] |}).
Proof.
  unfold invoke, bind, deref, ret. cbn. destruct (handle cfg r (world s)). reflexivity.
Qed.

Lemma bind_run {A B} (m : Prog State A) (f : A -> Prog State B) s a s' :
  m s = (Returned a, s') -> bind m f s = f a s'.
Proof. intros H. unfold bind. rewrite H. reflexivity. Qed.

(** C10. The one request [CreateS3BucketE] sends is a [CreateBucket] for the
    given name whose [ObjectOwnership] is [ObjectWriter] and which carries a
    [CreateBucketConfiguration] with the region as [LocationConstraint]
    exactly when the region is not "us-east-1"; for "us-east-1" it carries
    none. *)
Theorem CreateS3BucketE_request (region name : string) (s : State) cfg w1 :
  NewAuthenticatedSession region (world s) = (Some cfg, None, w1) ->
  exists params,
    calls (snd (CreateS3BucketE region name s)) = calls s ++ [CreateBucket params] /\
    cb_Bucket params = Some name /\
    cb_ObjectOwnership params = ObjectOwnershipObjectWriter /\
    (cb_CreateBucketConfiguration params = Some {| LocationConstraint := region |} <->
     region <> "us-east-1") /\
    (region = "us-east-1" -> cb_CreateBucketConfiguration params = None).
Proof.
  intros Hs. unfold CreateS3BucketE.
  rewrite (bind_run _ _ s tt s) by reflexivity.
  rewrite (bind_run _ _ _ _ _ (NewS3ClientE_ok _ _ _ _ Hs)).
  cbv zeta. unfold bind at 1. rewrite invoke_run.
  cbn [world calls fst snd].
  destruct (String.eqb_spec region "us-east-1") as [Heq|Hne]; cbn [negb].
  - eexists. split.
    { match goal with |- context [handle cfg ?r w1] => destruct (handle cfg r w1) as [[o e] w2] end.
      reflexivity. }
    cbn. repeat split; try congruence.
  - eexists. split.
    { match goal with |- context [handle cfg ?r w1] => destruct (handle cfg r w1) as [[o e] w2] end.
      reflexivity. }
    cbn. repeat split; try congruence.
Qed.

(** The map built by the [for ... range out.TagSet] loop. *)
Lemma tags_loop_snoc (tagset : list Tag) (tag : Tag) (acc : gmap string string) :
  fold_left (fun tags tag => <[ToString (Key tag) := ToString (Value tag)]> tags)
            (tagset ++ [tag]) acc =
  <[tag_key tag := tag_value tag]>
    (fold_left (fun tags tag => <[ToString (Key tag) := ToString (Value tag)]> tags)
               tagset acc).
Proof. rewrite fold_left_app. reflexivity. Qed.

Lemma tags_loop_lookup (tagset : list Tag) (k v : string) :
  fold_left (fun tags tag => <[ToString (Key tag) := ToString (Value tag)]> tags)
            tagset (∅ : gmap string string) !! k = Some v <->
  last_binding tagset k v.
Proof.
  revert v. induction tagset as [|tag tagset IH] using rev_ind; intros v.
  - cbn. rewrite lookup_empty. split; [discriminate|].
    intros (before & t & after & Heq & _). destruct before; discriminate.
  - rewrite tags_loop_snoc. destruct (decide (tag_key tag = k)) as [Hk|Hk].
    + rewrite Hk, lookup_insert_eq. split.
      * intros [= <-]. exists tagset, tag, []. repeat split; auto.
      * intros (before & t & after & Heq & Hkey & Hval & Hlater).
        destruct after as [|a after _] using rev_ind.
        -- apply app_inj_tail in Heq as [_ <-]. congruence.
        -- rewrite app_comm_cons, app_assoc in Heq.
           apply app_inj_tail in Heq as [_ <-].
           apply Forall_app in Hlater as [_ Hlast].
           inversion Hlast; subst. contradiction.
    + rewrite lookup_insert_ne by exact Hk. rewrite IH. split.
      * intros (before & t & after & -> & Hkey & Hval & Hlater).
        exists before, t, (after ++ [tag]). repeat split; auto.
        -- rewrite <- app_assoc. reflexivity.
        -- apply Forall_app. split; [exact Hlater|]. constructor; auto.
      * intros (before & t & after & Heq & Hkey & Hval & Hlater).
        destruct after as [|a after _] using rev_ind.
        -- apply app_inj_tail in Heq as [_ <-]. contradiction.
        -- rewrite app_comm_cons, app_assoc in Heq.
           apply app_inj_tail in Heq as [-> <-].
           apply Forall_app in Hlater as [Hlater _].
           exists before, t, after. repeat split; auto.
Qed.

(** C7. On a successful [GetBucketTagging] reply, [GetS3BucketTagsE] returns
    a map in which [k] is bound to [v] exactly when the reply's tag set
    binds [k] to [v], its last tag with key [k] winning; when the SDK call
    fails it returns the nil map together with that error. *)
Theorem GetS3BucketTagsE_marshals (awsRegion bucket : string) (s : State) cfg w1 :
  NewAuthenticatedSession awsRegion (world s) = (Some cfg, None, w1) ->
  (forall out w2,
     handle cfg (GetBucketTagging (Some bucket)) w1 = (Some out, None, w2) ->
     exists tags : gmap string string,
       GetS3BucketTagsE awsRegion bucket s =
       (Returned (Some tags, None),
        {| world := w2; calls := calls s ++ [GetBucketTagging (Some bucket)] |}) /\
       forall k v, tags !! k = Some v <-> last_binding (TagSet out) k v) /\
  (forall out e w2,
     handle cfg (GetBucketTagging (Some bucket)) w1 = (out, Some e, w2) ->
     GetS3BucketTagsE awsRegion bucket s =
     (Returned (None, Some (ErrSdk e)),
      {| world := w2; calls := calls s ++ [GetBucketTagging (Some bucket)] |})).
Proof.
  intros Hs. split.
  - intros out w2 Hreply. eexists. split.
    + unfold GetS3BucketTagsE.
      rewrite (bind_run _ _ _ _ _ (NewS3ClientE_ok _ _ _ _ Hs)).
      unfold bind at 1. rewrite invoke_run. cbn [world calls]. rewrite Hreply.
      reflexivity.
    + intros k v. apply tags_loop_lookup.
  - intros out e w2 Hreply. unfold GetS3BucketTagsE.
    rewrite (bind_run _ _ _ _ _ (NewS3ClientE_ok _ _ _ _ Hs)).
    unfold bind at 1. rewrite invoke_run. cbn [world calls]. rewrite Hreply.
    reflexivity.
Qed.

End Runs.

(** ** The bucket-emptying loop *)

Section Emptying.
Context `{sdk : Sdk}.

Lemma append_loop_map {A B} (f : A -> B) (l : list A) (acc : list B) :
  fold_left (fun acc x => acc ++ [f x]) l acc = acc ++ map f l.
Proof.
  revert acc. induction l as [|x l IH]; intros acc; cbn.
  - rewrite app_nil_r. reflexivity.
  - rewrite IH, <- app_assoc. reflexivity.
Qed.

Lemma objectsToDelete_of_listed (listing : ListObjectVersionsOutput) :
  objectsToDelete_of listing = listed_identifiers listing.
Proof.
  unfold objectsToDelete_of, listed_identifiers.
  rewrite !append_loop_map. reflexivity.
Qed.

Lemma length_zero_nil {A} (l : list A) : Nat.eqb (length l) 0 = true <-> l = [].
Proof. destruct l; cbn; split; congruence. Qed.

(** One pass of the loop body, by the replies of the store. *)
Lemma EmptyS3BucketE_body_run cfg name params s :
  EmptyS3BucketE_body (Some (NewFromConfig cfg)) name params s =
  match handle cfg (ListObjectVersions params) (world s) with
  | (_, Some e, w1) =>
      (Returned (LoopReturn (Some (ErrSdk e))),
       {| world := w1; calls := calls s ++ [ListObjectVersions params] |})
  | (None, None, w1) =>
      (Panicked, {| world := w1; calls := calls s ++ [ListObjectVersions params] |})
  | (Some listing, None, w1) =>
      if Nat.eqb (length (Versions listing)) 0 then
        (Returned (LoopReturn None),
         {| world := w1; calls := calls s ++ [ListObjectVersions params] |})
      else
        let s2 w2 := {| world := w2;
                        calls := (calls s ++ [ListObjectVersions params]) ++
                                 [bulk_delete name listing] |} in
        match handle cfg (bulk_delete name listing) w1 with
        | (_, Some e, w2) => (Returned (LoopReturn (Some (ErrSdk e))), s2 w2)
        | (_, None, w2) =>
            match IsTruncated listing, NextKeyMarker listing with
            | Some true, Some k => (Returned (LoopContinue (next_page params k)), s2 w2)
            | Some false, _ => (Returned LoopBreak, s2 w2)
            | _, _ => (Panicked, s2 w2)
            end
        end
  end.
Proof.
  unfold EmptyS3BucketE_body. unfold bind at 1. rewrite invoke_run.
  destruct (handle cfg (ListObjectVersions params) (world s)) as [[[listing|] [e|]] w1];
    cbn [fst snd]; try reflexivity.
  unfold bind at 1. cbn [deref ret].
  destruct (Nat.eqb (length (Versions listing)) 0); [reflexivity|].
  cbv zeta. unfold bind at 1. rewrite invoke_run. cbn [world calls]. unfold String_ptr.
  rewrite objectsToDelete_of_listed. fold (bulk_delete name listing).
  destruct (handle cfg (bulk_delete name listing) w1) as [[out [e|]] w2];
    cbn [fst snd]; [reflexivity|].
  destruct (IsTruncated listing) as [[|]|]; try reflexivity.
  destruct (NextKeyMarker listing); reflexivity.
Qed.

Lemma EmptyS3BucketE_loop_S fuel c name params s :
  EmptyS3BucketE_loop (S fuel) c name params s =
  match EmptyS3BucketE_body c name params s with
  | (Returned (LoopContinue params'), s') => EmptyS3BucketE_loop fuel c name params' s'
  | (Returned exit, s') => (Returned exit, s')
  | (Panicked, s') => (Panicked, s')
  | (TestFailed e, s') => (TestFailed e, s')
  | (OutOfFuel, s') => (OutOfFuel, s')
  end.
Proof.
  cbn [EmptyS3BucketE_loop]. unfold bind.
  destruct (EmptyS3BucketE_body c name params s) as [[[r| |p]| |e|] s']; reflexivity.
Qed.

(** One pass of the loop of [EmptyS3BucketE], given the listing the
    store answers with: the pass issues [ListObjectVersions] with the current
    parameters; if the listing has no versions the function returns nil at
    once; otherwise it issues one [DeleteObjects] naming every listed
    version and every listed delete marker and, the delete done, goes round
    again with [KeyMarker] set to the listing's [NextKeyMarker] when the
    listing is truncated and leaves the loop when it is not. *)
Theorem EmptyS3BucketE_pagination cfg (name : string) params (s : State) listing w1 fuel :
  handle cfg (ListObjectVersions params) (world s) = (Some listing, None, w1) ->
  let client := Some (NewFromConfig cfg) in
  let listed := calls s ++ [ListObjectVersions params] in
  (Versions listing = [] ->
   EmptyS3BucketE_loop (S fuel) client name params s =
   (Returned (LoopReturn None), {| world := w1; calls := listed |})) /\
  (Versions listing <> [] ->
   forall out w2,
     handle cfg (bulk_delete name listing) w1 = (out, None, w2) ->
     let deleted := {| world := w2; calls := listed ++ [bulk_delete name listing] |} in
     (forall k, IsTruncated listing = Some true -> NextKeyMarker listing = Some k ->
        EmptyS3BucketE_loop (S fuel) client name params s =
        EmptyS3BucketE_loop fuel client name (next_page params k) deleted) /\
     (IsTruncated listing = Some false ->
        EmptyS3BucketE_loop (S fuel) client name params s = (Returned LoopBreak, deleted))).
Proof.
  intros Hlist client listed. subst client listed. split.
  - intros Hnil. rewrite EmptyS3BucketE_loop_S, EmptyS3BucketE_body_run, Hlist.
    apply length_zero_nil in Hnil. rewrite Hnil. reflexivity.
  - intros Hne out w2 Hdel deleted. subst deleted.
    assert (Nat.eqb (length (Versions listing)) 0 = false) as Hlen.
    { destruct (Nat.eqb (length (Versions listing)) 0) eqn:E; [|reflexivity].
      apply length_zero_nil in E. contradiction. }
    split.
    + intros k Htrunc Hnext.
      rewrite EmptyS3BucketE_loop_S, EmptyS3BucketE_body_run, Hlist, Hlen.
      cbv zeta. rewrite Hdel, Htrunc, Hnext. reflexivity.
    + intros Htrunc.
      rewrite EmptyS3BucketE_loop_S, EmptyS3BucketE_body_run, Hlist, Hlen.
      cbv zeta. rewrite Hdel, Htrunc. reflexivity.
Qed.

(** A pass that stops the loop stops it whatever fuel is left. *)
Lemma EmptyS3BucketE_loop_stops fuel c name params s exit s' :
  EmptyS3BucketE_body c name params s = (Returned exit, s') ->
  (forall p, exit <> LoopContinue p) ->
  EmptyS3BucketE_loop (S fuel) c name params s = (Returned exit, s').
Proof.
  intros Hbody Hstop. rewrite EmptyS3BucketE_loop_S, Hbody.
  destruct exit as [r| |p]; try reflexivity. exfalso. apply (Hstop p). reflexivity.
Qed.

(** Along a chain of listings that ends, the loop leaves by [return] or
    [break] after finitely many passes. *)
(** Closes a case in which the first pass ends the loop; [tac] rewrites
    the pass with the replies at hand. *)
Ltac stop_with tac :=
  exists 1; do 2 eexists; split; cycle 1;
  [ intros [|?] ?; [lia|];
    apply EmptyS3BucketE_loop_stops;
    [ rewrite EmptyS3BucketE_body_run; tac; reflexivity | intros ?; discriminate ]
  | intros ?; discriminate ].

Lemma EmptyS3BucketE_loop_terminates cfg name params s :
  ChainEnds cfg name (world s) params ->
  exists fuel exit s',
    (forall p, exit <> LoopContinue p) /\
    forall fuel', fuel <= fuel' ->
      EmptyS3BucketE_loop fuel' (Some (NewFromConfig cfg)) name params s = (Returned exit, s').
Proof.
  intros Hchain. remember (world s) as w eqn:Hw. revert s Hw.
  induction Hchain as
    [ w params out e w1 Hlist
    | w params listing w1 Hlist Hnil
    | w params listing w1 out e w2 Hlist Hdel
    | w params listing w1 out w2 Hlist Hdel Htrunc
    | w params listing w1 out w2 k Hlist Hdel Htrunc Hnext Hchain IH ];
    intros s ->.
  - stop_with ltac:(rewrite Hlist; destruct out).
  - stop_with ltac:(rewrite Hlist; apply length_zero_nil in Hnil;
                      rewrite Hnil).
  - destruct (Nat.eqb (length (Versions listing)) 0) eqn:Hlen.
    + stop_with ltac:(rewrite Hlist, Hlen).
    + stop_with ltac:(rewrite Hlist, Hlen; cbv zeta; rewrite Hdel).
  - destruct (Nat.eqb (length (Versions listing)) 0) eqn:Hlen.
    + stop_with ltac:(rewrite Hlist, Hlen).
    + stop_with ltac:(rewrite Hlist, Hlen; cbv zeta; rewrite Hdel, Htrunc).
  - destruct (Nat.eqb (length (Versions listing)) 0) eqn:Hlen.
    + stop_with ltac:(rewrite Hlist, Hlen).
    + destruct (IH {| world := w2;
                      calls := (calls s ++ [ListObjectVersions params]) ++
                               [bulk_delete name listing] |} eq_refl)
        as (fuel & exit & s' & Hstop & Hrun).
      exists (S fuel), exit, s'. split; [exact Hstop|].
      intros [|fuel'] Hle; [lia|].
      rewrite EmptyS3BucketE_loop_S, EmptyS3BucketE_body_run, Hlist, Hlen.
      cbv zeta. rewrite Hdel, Htrunc, Hnext. apply Hrun. lia.
Qed.

(** C5. [EmptyS3BucketE] returns after finitely many passes of its loop
    whenever the chain of listings of the bucket that starts without a key
    marker comes to an end (and at once when no client can be built): from
    some iteration bound on, every bound gives the same returned error value
    and the same final state. *)
Theorem EmptyS3BucketE_terminates (region name : string) (s : State) sess err w1 :
  NewAuthenticatedSession region (world s) = (sess, err, w1) ->
  (err = None -> exists cfg, sess = Some cfg /\ ChainEnds cfg name w1 (first_page name)) ->
  exists fuel r s',
    forall fuel', fuel <= fuel' ->
      EmptyS3BucketE fuel' region name s = (Returned r, s').
Proof.
  intros Hs Hchain. destruct err as [e|].
  - exists 0, (Some e). eexists. intros fuel' _. unfold EmptyS3BucketE.
    rewrite (bind_run _ _ s tt s) by reflexivity.
    rewrite (bind_run _ _ _ _ _ (NewS3ClientE_error _ _ _ _ _ Hs)). reflexivity.
  - destruct (Hchain eq_refl) as (cfg & -> & Hends).
    destruct (EmptyS3BucketE_loop_terminates cfg name _
                {| world := w1; calls := calls s |} Hends)
      as (fuel & exit & s' & Hstop & Hrun).
    exists fuel.
    exists (match exit with LoopReturn r => r | _ => None end), s'.
    intros fuel' Hle. unfold EmptyS3BucketE.
    rewrite (bind_run _ _ s tt s) by reflexivity.
    rewrite (bind_run _ _ _ _ _ (NewS3ClientE_ok _ _ _ _ Hs)).
    cbv zeta. unfold String_ptr. fold (first_page name).
    rewrite (bind_run _ _ _ _ _ (Hrun fuel' Hle)).
    destruct exit as [r| |p]; reflexivity.
Qed.

End Emptying.

(** ** Requests and errors of the single-request helpers *)

Section SingleRequest.
Context `{sdk : Sdk}.

Ltac unfold_helpers :=
  unfold with_value, without_value,
    GetS3BucketTagsE, GetS3ObjectContentsE, PutS3ObjectContentsE,
    CreateS3BucketE, PutS3BucketPolicyE, PutS3BucketVersioningE, DeleteS3BucketE,
    GetS3BucketLoggingTargetE, GetS3BucketLoggingTargetPrefixE,
    AssertS3BucketExistsE, AssertS3BucketVersioningExistsE, AssertS3BucketPolicyExistsE,
    GetS3BucketVersioningE, GetS3BucketPolicyE, GetS3BucketOwnershipControlsE,
    NewS3ClientE, NewS3UploaderE, call_NewAuthenticatedSession, invoke, Logf,
    bind, deref, ret, panic, String_ptr, ObjectOwnershipObjectWriter,
    MFADeleteDisabled, BucketVersioningStatusEnabled.

(** A single-request helper whose client is built sends its request once,
    whatever the reply. *)
Lemma single_request_calls h req s cfg w1 :
  sdk_request h = Some req ->
  NewAuthenticatedSession (helper_region h) (world s) = (Some cfg, None, w1) ->
  calls (snd (error_returning h s)) = calls s ++ [req].
Proof.
  intros Hreq Hs.
  destruct h; cbn [sdk_request] in Hreq; inversion Hreq; subst req; clear Hreq;
    cbn [helper_region] in Hs; cbn [error_returning]; unfold_helpers;
    rewrite Hs; cbn [client_config world calls];
    try (destruct (String.eqb region "us-east-1"); cbn [negb]);
    match goal with
    | |- context [handle cfg ?r w1] => destruct (handle cfg r w1) as [[[out|] [e|]] w2]
    end; cbn [fst snd calls]; try reflexivity;
    repeat match goal with
           | |- context [match reader_err ?x with _ => _ end] => destruct (reader_err x)
           | |- context [match LoggingEnabled_ ?x with _ => _ end] =>
               destruct (LoggingEnabled_ x)
           | |- context [match OwnershipControls_ ?x with _ => _ end] =>
               destruct (OwnershipControls_ x)
           | |- context [if String.eqb ?a ?b then _ else _] => destruct (String.eqb a b)
           end; reflexivity.
Qed.

(** A failed request ends a single-request helper at once, with the zero
    value and the error of the request. *)
Lemma single_request_error h req s cfg w1 out e w2 :
  sdk_request h = Some req ->
  NewAuthenticatedSession (helper_region h) (world s) = (Some cfg, None, w1) ->
  handle cfg req w1 = (out, Some e, w2) ->
  error_returning h s =
  (Returned (zero_value h, Some (ErrSdk e)), {| world := w2; calls := calls s ++ [req] |}).
Proof.
  intros Hreq Hs Hreply.
  destruct h; cbn [sdk_request] in Hreq; inversion Hreq; subst req; clear Hreq;
    cbn [helper_region] in Hs; cbn [error_returning zero_value]; unfold_helpers;
    rewrite Hs; cbn [client_config world calls];
    try (destruct (String.eqb region "us-east-1");
         cbn [negb cb_Bucket cb_ObjectOwnership] in * );
    rewrite Hreply; reflexivity.
Qed.

(** When the client cannot be built no request is sent. *)
Lemma no_client_no_request h s sess e w1 :
  NewAuthenticatedSession (helper_region h) (world s) = (sess, Some e, w1) ->
  calls (snd (error_returning h s)) = calls s.
Proof.
  intros Hs.
  destruct h; cbn [helper_region] in Hs; cbn [error_returning]; unfold_helpers;
    unfold FindS3BucketWithTagE, EmptyS3BucketE, NewS3ClientE, call_NewAuthenticatedSession,
      Logf, bind, ret;
    rewrite Hs; reflexivity.
Qed.

End SingleRequest.

(** ** The search for a tagged bucket *)

Section Finding.
Context `{sdk : Sdk}.

(** The inner loop reads tags only: it leaves the state as it was. *)
Lemma FindS3BucketWithTagE_tags_pure key value tags (s : State) :
  exists o, FindS3BucketWithTagE_tags key value tags s = (o, s).
Proof.
  induction tags as [|tag rest [o IH]]; cbn [FindS3BucketWithTagE_tags].
  - eexists. reflexivity.
  - unfold bind, deref, ret, panic. destruct (Key tag) as [k|]; [|eexists; reflexivity].
    destruct (String.eqb k key); [|eexists; exact IH].
    destruct (Value tag) as [v|]; [|eexists; reflexivity].
    destruct (String.eqb v value); eexists; [reflexivity | exact IH].
Qed.

(** The scan either ends the search in the state it started in or hands
    over to the next bucket. *)
Lemma FindS3BucketWithTagE_scan_cases bucket key value out next (s : State) :
  (exists o, FindS3BucketWithTagE_scan bucket key value out next s = (o, s)) \/
  FindS3BucketWithTagE_scan bucket key value out next s = next s.
Proof.
  unfold FindS3BucketWithTagE_scan. destruct out as [resp|].
  - cbn [deref]. rewrite (bind_run _ _ s resp s) by reflexivity.
    destruct (FindS3BucketWithTagE_tags_pure key value (TagSet resp) s) as [o Ho].
    destruct o as [[|]| | |];
      try (left; unfold bind at 1; rewrite Ho; eexists; reflexivity);
      rewrite (bind_run _ _ _ _ _ Ho).
    + left. unfold bind, deref, Logf, ret, panic. destruct (Name bucket); eexists; reflexivity.
    + right. reflexivity.
  - left. eexists. reflexivity.
Qed.

(** One pass of the outer loop, by the reply of the store. *)
Lemma FindS3BucketWithTagE_buckets_cons cfg key value bucket rest (s : State) :
  let client := Some (NewFromConfig cfg) in
  let reply := handle cfg (tagging_request bucket) (world s) in
  let s1 := {| world := snd reply; calls := calls s ++ [tagging_request bucket] |} in
  FindS3BucketWithTagE_buckets client key value (bucket :: rest) s =
  match snd (fst reply) with
  | Some e =>
      if skipped e then FindS3BucketWithTagE_buckets client key value rest s1
      else if tolerated e then
        FindS3BucketWithTagE_scan bucket key value (fst (fst reply))
          (FindS3BucketWithTagE_buckets client key value rest) s1
      else (Returned ("", Some (ErrSdk e)), s1)
  | None =>
      FindS3BucketWithTagE_scan bucket key value (fst (fst reply))
        (FindS3BucketWithTagE_buckets client key value rest) s1
  end.
Proof.
  cbv zeta. cbn [FindS3BucketWithTagE_buckets]. unfold bind at 1. rewrite invoke_run.
  unfold tagging_request, skipped, tolerated.
  destruct (handle cfg (GetBucketTagging (Name bucket)) (world s)) as [[out [e|]] w1];
    cbn [fst snd]; [|reflexivity].
  destruct (Contains (Error e) "NoSuchBucket"); [reflexivity|].
  destruct (Contains (Error e) "AuthorizationHeaderMalformed"),
           (Contains (Error e) "BucketRegionError"),
           (Contains (Error e) "NoSuchTagSet"); reflexivity.
Qed.

(** The outer loop sends one tagging request per bucket it gets to, in the
    order of the listing. *)
Lemma FindS3BucketWithTagE_buckets_calls cfg key value buckets (s : State) :
  exists examined,
    examined `prefix_of` buckets /\
    calls (snd (FindS3BucketWithTagE_buckets (Some (NewFromConfig cfg)) key value buckets s)) =
    calls s ++ map tagging_request examined.
Proof.
  revert s. induction buckets as [|bucket rest IH]; intros s.
  - exists []. split; [reflexivity|]. cbn. rewrite app_nil_r. reflexivity.
  - rewrite FindS3BucketWithTagE_buckets_cons. cbv zeta.
    set (s1 := {| world := _; calls := _ |}).
    destruct (IH s1) as (examined & Hpre & Hcalls).
    assert (exists ex, ex `prefix_of` bucket :: rest /\
              calls (snd (FindS3BucketWithTagE_buckets (Some (NewFromConfig cfg))
                            key value rest s1)) = calls s ++ map tagging_request ex) as Hnext.
    { exists (bucket :: examined). split; [apply prefix_cons; exact Hpre|].
      rewrite Hcalls. subst s1. cbn [calls map]. rewrite <- app_assoc. reflexivity. }
    assert (exists ex, ex `prefix_of` bucket :: rest /\
              calls s1 = calls s ++ map tagging_request ex) as Hhere.
    { exists [bucket]. split; [apply prefix_cons, prefix_nil|]. reflexivity. }
    assert (forall out, exists ex, ex `prefix_of` bucket :: rest /\
              calls (snd (FindS3BucketWithTagE_scan bucket key value out
                            (FindS3BucketWithTagE_buckets (Some (NewFromConfig cfg))
                               key value rest) s1)) =
              calls s ++ map tagging_request ex) as Hscan.
    { intros out.
      destruct (FindS3BucketWithTagE_scan_cases bucket key value out
                  (FindS3BucketWithTagE_buckets (Some (NewFromConfig cfg)) key value rest) s1)
        as [[o ->]| ->]; [exact Hhere | exact Hnext]. }
    destruct (snd (fst (handle cfg (tagging_request bucket) (world s)))) as [e|];
      [|apply Hscan].
    destruct (skipped e); [exact Hnext|].
    destruct (tolerated e); [apply Hscan | exact Hhere].
Qed.

End Finding.

(** ** Errors of the SDK *)

Section Errors.
Context `{sdk : Sdk}.

(** What the loop returns is what [EmptyS3BucketE] returns. *)
Lemma EmptyS3BucketE_returns_loop_error fuel region name (s : State) cfg w1 r s' :
  NewAuthenticatedSession region (world s) = (Some cfg, None, w1) ->
  EmptyS3BucketE_loop fuel (Some (NewFromConfig cfg)) name (first_page name)
    {| world := w1; calls := calls s |} = (Returned (LoopReturn r), s') ->
  EmptyS3BucketE fuel region name s = (Returned r, s').
Proof.
  intros Hs Hloop. unfold EmptyS3BucketE.
  rewrite (bind_run _ _ s tt s) by reflexivity.
  rewrite (bind_run _ _ _ _ _ (NewS3ClientE_ok _ _ _ _ Hs)).
  cbv zeta. unfold String_ptr. fold (first_page name).
  rewrite (bind_run _ _ _ _ _ Hloop). reflexivity.
Qed.

(** After [break] the function returns nil. *)
Lemma EmptyS3BucketE_after_break fuel region name (s : State) cfg w1 s' :
  NewAuthenticatedSession region (world s) = (Some cfg, None, w1) ->
  EmptyS3BucketE_loop fuel (Some (NewFromConfig cfg)) name (first_page name)
    {| world := w1; calls := calls s |} = (Returned LoopBreak, s') ->
  EmptyS3BucketE fuel region name s = (Returned None, s').
Proof.
  intros Hs Hloop. unfold EmptyS3BucketE.
  rewrite (bind_run _ _ s tt s) by reflexivity.
  rewrite (bind_run _ _ _ _ _ (NewS3ClientE_ok _ _ _ _ Hs)).
  cbv zeta. unfold String_ptr. fold (first_page name).
  rewrite (bind_run _ _ _ _ _ Hloop). reflexivity.
Qed.

(** The one error [PutS3ObjectContentsE] does not hand on as it is comes
    from the construction of the client, not from a request. *)
Lemma PutS3ObjectContentsE_wraps_client_error awsRegion bucket key body (s : State) sess e w1 :
  NewAuthenticatedSession awsRegion (world s) = (sess, Some e, w1) ->
  PutS3ObjectContentsE awsRegion bucket key body s =
  (Returned (Some (ErrWrapped "failed to instantiate s3 client: %w" e)),
   {| world := w1; calls := calls s |}).
Proof.
  intros Hs. unfold PutS3ObjectContentsE.
  rewrite (bind_run _ _ _ _ _ (NewS3ClientE_error _ _ _ _ _ Hs)). reflexivity.
Qed.

(** C6. An error of a storage request ends the helper at once: the helper
    returns that error with the zero value of its result type, and its
    request log ends with the one failed request.  This holds for the
    single-request helpers, for either request of a pass of the loop of
    [EmptyS3BucketE], and for the [ListBuckets] request of
    [FindS3BucketWithTagE]; only the [GetBucketTagging] errors of
    [FindS3BucketWithTagE] are treated otherwise: the bucket is skipped on
    "NoSuchBucket", the search goes on to the tag scan on
    "AuthorizationHeaderMalformed", "BucketRegionError" and "NoSuchTagSet",
    and any other error is returned. *)
Theorem sdk_errors_pass_through :
  (forall h req (s : State) cfg w1 out e w2,
     sdk_request h = Some req ->
     NewAuthenticatedSession (helper_region h) (world s) = (Some cfg, None, w1) ->
     handle cfg req w1 = (out, Some e, w2) ->
     error_returning h s =
     (Returned (zero_value h, Some (ErrSdk e)),
      {| world := w2; calls := calls s ++ [req] |})) /\
  (forall fuel cfg name params (s : State) out e w1,
     handle cfg (ListObjectVersions params) (world s) = (out, Some e, w1) ->
     EmptyS3BucketE_loop (S fuel) (Some (NewFromConfig cfg)) name params s =
     (Returned (LoopReturn (Some (ErrSdk e))),
      {| world := w1; calls := calls s ++ [ListObjectVersions params] |})) /\
  (forall fuel cfg name params (s : State) listing w1 out e w2,
     handle cfg (ListObjectVersions params) (world s) = (Some listing, None, w1) ->
     Versions listing <> [] ->
     handle cfg (bulk_delete name listing) w1 = (out, Some e, w2) ->
     EmptyS3BucketE_loop (S fuel) (Some (NewFromConfig cfg)) name params s =
     (Returned (LoopReturn (Some (ErrSdk e))),
      {| world := w2;
         calls := (calls s ++ [ListObjectVersions params]) ++ [bulk_delete name listing] |})) /\
  (forall fuel region name (s : State) cfg w1 r s',
     NewAuthenticatedSession region (world s) = (Some cfg, None, w1) ->
     EmptyS3BucketE_loop fuel (Some (NewFromConfig cfg)) name (first_page name)
       {| world := w1; calls := calls s |} = (Returned (LoopReturn r), s') ->
     EmptyS3BucketE fuel region name s = (Returned r, s')) /\
  (forall awsRegion key value (s : State) cfg w1 out e w2,
     NewAuthenticatedSession awsRegion (world s) = (Some cfg, None, w1) ->
     handle cfg ListBuckets w1 = (out, Some e, w2) ->
     FindS3BucketWithTagE awsRegion key value s =
     (Returned ("", Some (ErrSdk e)), {| world := w2; calls := calls s ++ [ListBuckets] |})) /\
  (forall cfg key value bucket rest (s : State) out e w1,
     handle cfg (tagging_request bucket) (world s) = (out, Some e, w1) ->
     let client := Some (NewFromConfig cfg) in
     let s1 := {| world := w1; calls := calls s ++ [tagging_request bucket] |} in
     FindS3BucketWithTagE_buckets client key value (bucket :: rest) s =
     if skipped e then FindS3BucketWithTagE_buckets client key value rest s1
     else if tolerated e then
       FindS3BucketWithTagE_scan bucket key value out
         (FindS3BucketWithTagE_buckets client key value rest) s1
     else (Returned ("", Some (ErrSdk e)), s1)).
Proof.
  repeat apply conj.
  - apply @single_request_error.
  - intros fuel cfg name params s out e w1 Hlist.
    apply EmptyS3BucketE_loop_stops; [|intros p; discriminate].
    rewrite EmptyS3BucketE_body_run, Hlist. destruct out; reflexivity.
  - intros fuel cfg name params s listing w1 out e w2 Hlist Hne Hdel.
    apply EmptyS3BucketE_loop_stops; [|intros p; discriminate].
    rewrite EmptyS3BucketE_body_run, Hlist.
    destruct (Nat.eqb (length (Versions listing)) 0) eqn:Hlen.
    + apply length_zero_nil in Hlen. contradiction.
    + cbv zeta. rewrite Hdel. reflexivity.
  - apply @EmptyS3BucketE_returns_loop_error.
  - intros awsRegion key value s cfg w1 out e w2 Hs Hlist. unfold FindS3BucketWithTagE.
    rewrite (bind_run _ _ _ _ _ (NewS3ClientE_ok _ _ _ _ Hs)).
    unfold bind at 1. rewrite invoke_run. cbn [world calls]. rewrite Hlist. reflexivity.
  - intros cfg key value bucket rest s out e w1 Hreply client s1. subst client s1.
    rewrite FindS3BucketWithTagE_buckets_cons. cbv zeta. rewrite Hreply. reflexivity.
Qed.

End Errors.

(** ** How many requests a helper sends *)

Section Requests.
Context `{sdk : Sdk}.

Lemma NewS3ClientE_calls region (s : State) :
  calls (snd (NewS3ClientE region s)) = calls s.
Proof.
  unfold NewS3ClientE, call_NewAuthenticatedSession, bind, deref, ret, panic.
  destruct (NewAuthenticatedSession region (world s)) as [[[cfg|] [e|]] w1]; reflexivity.
Qed.

Lemma NewS3UploaderE_calls region (s : State) :
  calls (snd (NewS3UploaderE region s)) = calls s.
Proof.
  unfold NewS3UploaderE, call_NewAuthenticatedSession, bind, deref, ret, panic.
  destruct (NewAuthenticatedSession region (world s)) as [[[cfg|] [e|]] w1]; reflexivity.
Qed.

Lemma FindS3BucketWithTagE_calls awsRegion key value (s : State) cfg w1 resp w2 :
  NewAuthenticatedSession awsRegion (world s) = (Some cfg, None, w1) ->
  handle cfg ListBuckets w1 = (Some resp, None, w2) ->
  exists examined,
    examined `prefix_of` Buckets resp /\
    calls (snd (FindS3BucketWithTagE awsRegion key value s)) =
    calls s ++ ListBuckets :: map tagging_request examined.
Proof.
  intros Hs Hlist. unfold FindS3BucketWithTagE.
  rewrite (bind_run _ _ _ _ _ (NewS3ClientE_ok _ _ _ _ Hs)).
  unfold bind at 1. rewrite invoke_run. cbn [world calls]. rewrite Hlist.
  cbn [fst snd deref]. rewrite (bind_run _ _ _ resp _) by reflexivity.
  destruct (FindS3BucketWithTagE_buckets_calls cfg key value (Buckets resp)
              {| world := w2; calls := calls s ++ [ListBuckets] |})
    as (examined & Hpre & Hcalls).
  exists examined. split; [exact Hpre|].
  rewrite Hcalls. cbn [calls]. rewrite <- app_assoc. reflexivity.
Qed.

Lemma EmptyS3BucketE_body_calls cfg name params (s : State) :
  calls (snd (EmptyS3BucketE_body (Some (NewFromConfig cfg)) name params s)) =
    calls s ++ [ListObjectVersions params] \/
  exists listing,
    calls (snd (EmptyS3BucketE_body (Some (NewFromConfig cfg)) name params s)) =
    calls s ++ [ListObjectVersions params; bulk_delete name listing].
Proof.
  rewrite EmptyS3BucketE_body_run.
  destruct (handle cfg (ListObjectVersions params) (world s)) as [[[listing|] [e|]] w1];
    try (left; reflexivity).
  destruct (Nat.eqb (length (Versions listing)) 0); [left; reflexivity|].
  right. exists listing. cbv zeta.
  destruct (handle cfg (bulk_delete name listing) w1) as [[out [e|]] w2];
    [|destruct (IsTruncated listing) as [[|]|], (NextKeyMarker listing)];
    cbn [snd calls]; rewrite <- app_assoc; reflexivity.
Qed.

(** C3 (amended). A helper that is neither [FindS3BucketWithTagE] nor
    [EmptyS3BucketE] nor a constructor sends exactly one storage request
    once its client is built; no helper sends a request when the client
    cannot be built, and the two constructors never send one;
    [FindS3BucketWithTagE] sends [ListBuckets] and then one
    [GetBucketTagging] per bucket it gets to, in listing order; each pass of
    the loop of [EmptyS3BucketE] sends one [ListObjectVersions] and at most
    one [DeleteObjects]. *)
Theorem requests_per_helper :
  (forall h req (s : State) cfg w1,
     sdk_request h = Some req ->
     NewAuthenticatedSession (helper_region h) (world s) = (Some cfg, None, w1) ->
     calls (snd (error_returning h s)) = calls s ++ [req]) /\
  (forall h (s : State) sess e w1,
     NewAuthenticatedSession (helper_region h) (world s) = (sess, Some e, w1) ->
     calls (snd (error_returning h s)) = calls s) /\
  (forall region (s : State),
     calls (snd (NewS3ClientE region s)) = calls s /\
     calls (snd (NewS3UploaderE region s)) = calls s) /\
  (forall awsRegion key value (s : State) cfg w1 resp w2,
     NewAuthenticatedSession awsRegion (world s) = (Some cfg, None, w1) ->
     handle cfg ListBuckets w1 = (Some resp, None, w2) ->
     exists examined,
       examined `prefix_of` Buckets resp /\
       calls (snd (FindS3BucketWithTagE awsRegion key value s)) =
       calls s ++ ListBuckets :: map tagging_request examined) /\
  (forall cfg name params (s : State),
     calls (snd (EmptyS3BucketE_body (Some (NewFromConfig cfg)) name params s)) =
       calls s ++ [ListObjectVersions params] \/
     exists listing,
       calls (snd (EmptyS3BucketE_body (Some (NewFromConfig cfg)) name params s)) =
       calls s ++ [ListObjectVersions params; bulk_delete name listing]).
Proof.
  repeat apply conj.
  - apply @single_request_calls.
  - apply @no_client_no_request.
  - intros region s. split; [apply NewS3ClientE_calls | apply NewS3UploaderE_calls].
  - apply @FindS3BucketWithTagE_calls.
  - apply @EmptyS3BucketE_body_calls.
Qed.

End Requests.

(** C3 as stated fails: on the store with two tagged buckets,
    [FindS3BucketWithTagE] sends three requests. *)
Lemma one_request_per_helper_fails : ~ @one_request_per_helper Mem.sdk.
Proof.
  intros Hone.
  destruct (Hone (CallFindS3BucketWithTag "eu-west-1" "env" "qa")
                 (Mem.start Stores.two_buckets)) as [req Hreq].
  vm_compute in Hreq. discriminate Hreq.
Qed.

(** ** The search that finds nothing *)

Section NotFound.
Context `{sdk : Sdk}.

Lemma FindS3BucketWithTagE_tags_none key value tags (s : State) :
  forallb (other_tag key value) tags = true ->
  FindS3BucketWithTagE_tags key value tags s = (Returned false, s).
Proof.
  induction tags as [|tag rest IH]; cbn [forallb FindS3BucketWithTagE_tags]; [reflexivity|].
  intros [Htag Hrest]%andb_prop. unfold other_tag in Htag.
  destruct (Key tag) as [k|]; [|discriminate].
  destruct (Value tag) as [v|]; [|discriminate].
  cbn [deref]. rewrite (bind_run _ _ s k s) by reflexivity.
  destruct (String.eqb k key); [|exact (IH Hrest)].
  rewrite (bind_run _ _ s v s) by reflexivity.
  destruct (String.eqb v value); [discriminate | exact (IH Hrest)].
Qed.

Lemma FindS3BucketWithTagE_buckets_none cfg key value buckets (s : State) :
  no_bucket_carries cfg key value buckets (world s) ->
  exists s', FindS3BucketWithTagE_buckets (Some (NewFromConfig cfg)) key value buckets s =
             (Returned ("", None), s').
Proof.
  revert s. induction buckets as [|bucket rest IH]; intros s.
  - intros _. eexists. reflexivity.
  - cbn [no_bucket_carries]. intros [Hreply Hrest].
    rewrite FindS3BucketWithTagE_buckets_cons. cbv zeta.
    set (s1 := {| world := _; calls := _ |}).
    destruct (IH s1 Hrest) as [s' Hnext].
    destruct (handle cfg (tagging_request bucket) (world s)) as [[[out|] [e|]] w1];
      cbn [fst snd without_tag_pair] in *.
    + rewrite Hreply. exists s'. exact Hnext.
    + unfold FindS3BucketWithTagE_scan. cbn [deref].
      rewrite (bind_run _ _ s1 out s1) by reflexivity.
      rewrite (bind_run _ _ _ _ _ (FindS3BucketWithTagE_tags_none _ _ _ s1 Hreply)).
      exists s'. exact Hnext.
    + rewrite Hreply. exists s'. exact Hnext.
    + discriminate.
Qed.

(** When the listing succeeds and the tagging reply of every listed bucket
    shows a tag set without the pair [key]=[value], or reports the bucket
    gone, [FindS3BucketWithTagE] returns the empty name with a nil error. *)
Theorem FindS3BucketWithTagE_not_found (awsRegion key value : string) (s : State)
    cfg w1 resp w2 :
  NewAuthenticatedSession awsRegion (world s) = (Some cfg, None, w1) ->
  handle cfg ListBuckets w1 = (Some resp, None, w2) ->
  no_bucket_carries cfg key value (Buckets resp) w2 ->
  exists s', FindS3BucketWithTagE awsRegion key value s = (Returned ("", None), s').
Proof.
  intros Hs Hlist Hnone. unfold FindS3BucketWithTagE.
  rewrite (bind_run _ _ _ _ _ (NewS3ClientE_ok _ _ _ _ Hs)).
  unfold bind at 1. rewrite invoke_run. cbn [world calls]. rewrite Hlist.
  cbn [fst snd deref]. rewrite (bind_run _ _ _ resp _) by reflexivity.
  apply FindS3BucketWithTagE_buckets_none. exact Hnone.
Qed.

(** A nil response next to an error the search goes past is dereferenced. *)
Lemma FindS3BucketWithTagE_nil_response cfg key value bucket rest (s : State) e w1 :
  handle cfg (tagging_request bucket) (world s) = (None, Some e, w1) ->
  skipped e = false ->
  tolerated e = true ->
  FindS3BucketWithTagE_buckets (Some (NewFromConfig cfg)) key value (bucket :: rest) s =
  (Panicked, {| world := w1; calls := calls s ++ [tagging_request bucket] |}).
Proof.
  intros Hreply Hskip Htol.
  rewrite FindS3BucketWithTagE_buckets_cons. cbv zeta.
  rewrite Hreply. cbn [fst snd]. rewrite Hskip, Htol. reflexivity.
Qed.

End NotFound.

(** ** Runs on concrete stores *)

(** The search finds the bucket tagged [env]=[prod] after asking both. *)
Example FindS3BucketWithTagE_finds_beta :
  FindS3BucketWithTagE "eu-west-1" "env" "prod" (Mem.start Stores.two_buckets) =
  (Returned ("beta", None),
   Mem.state Stores.two_buckets
     [ListBuckets; GetBucketTagging (Some "alpha"); GetBucketTagging (Some "beta")]).
Proof. reflexivity. Qed.

(** Three versions listed two at a time are gone after two passes. *)
Example EmptyS3BucketE_three_versions :
  let run := EmptyS3BucketE 2 "eu-west-1" "data" (Mem.start Stores.three_versions) in
  fst run = Returned None /\
  length (calls (snd run)) = 4 /\
  Mem.entries_of "data" (snd run) = [].
Proof. repeat split. Qed.

(** With one pass allowed the same run stops at the iteration bound. *)
Example EmptyS3BucketE_three_versions_bound :
  fst (EmptyS3BucketE 1 "eu-west-1" "data" (Mem.start Stores.three_versions)) = OutOfFuel.
Proof. reflexivity. Qed.

(** C8. On the store with one untagged bucket the tagging request fails
    with "NoSuchTagSet" and a nil response, and [FindS3BucketWithTagE]
    panics on [tagResponse.TagSet]. *)
Theorem FindS3BucketWithTagE_untagged_bucket_panics :
  FindS3BucketWithTagE "eu-west-1" "env" "dev" (Mem.start Stores.untagged_bucket) =
  (Panicked,
   Mem.state Stores.untagged_bucket [ListBuckets; GetBucketTagging (Some "plain")]).
Proof. reflexivity. Qed.

(** C1. On the store whose bucket holds a lone delete marker,
    [EmptyS3BucketE] returns nil after its first listing, and the delete
    marker is still in the bucket. *)
Theorem EmptyS3BucketE_leaves_delete_marker (fuel : nat) :
  let run := EmptyS3BucketE (S fuel) "eu-west-1" "logs" (Mem.start Stores.lone_delete_marker) in
  fst run = Returned None /\
  calls (snd run) = [ListObjectVersions (first_page "logs")] /\
  Mem.entries_of "logs" (snd run) =
  [ {| Mem.entry_key := "app.log"; Mem.entry_version := "3HL4kqtJvjVBH40Nrjfkd";
       Mem.entry_is_delete_marker := true |} ].
Proof. repeat split. Qed.

(** ** The statements at concrete inputs *)

Lemma CreateS3BucketE_request_witness :
  @NewAuthenticatedSession Mem.sdk "eu-west-1" Stores.two_buckets =
    (Some tt, None, Stores.two_buckets) /\
  exists params,
    calls (snd (CreateS3BucketE "eu-west-1" "gamma" (Mem.start Stores.two_buckets))) =
      [] ++ [CreateBucket params] /\
    cb_Bucket params = Some "gamma" /\
    cb_ObjectOwnership params = ObjectOwnershipObjectWriter /\
    (cb_CreateBucketConfiguration params = Some {| LocationConstraint := "eu-west-1" |} <->
     "eu-west-1" <> "us-east-1") /\
    ("eu-west-1" = "us-east-1" -> cb_CreateBucketConfiguration params = None).
Proof.
  split; [reflexivity|].
  apply (CreateS3BucketE_request (sdk := Mem.sdk) "eu-west-1" "gamma"
           (Mem.start Stores.two_buckets) tt Stores.two_buckets).
  reflexivity.
Defined.

Lemma GetS3BucketTagsE_marshals_witness :
  @NewAuthenticatedSession Mem.sdk "eu-west-1" Stores.two_buckets =
    (Some tt, None, Stores.two_buckets) /\
  exists (out : GetBucketTaggingOutput) (tags : gmap string string),
    @handle Mem.sdk tt (GetBucketTagging (Some "beta")) Stores.two_buckets =
      (Some out, None, Stores.two_buckets) /\
    GetS3BucketTagsE "eu-west-1" "beta" (Mem.start Stores.two_buckets) =
      (Returned (Some tags, None),
       Mem.state Stores.two_buckets [GetBucketTagging (Some "beta")]) /\
    forall k v, tags !! k = Some v <-> last_binding (TagSet out) k v.
Proof.
  split; [reflexivity|].
  eexists. 
  destruct (proj1 (GetS3BucketTagsE_marshals (sdk := Mem.sdk) "eu-west-1" "beta"
                     (Mem.start Stores.two_buckets) tt Stores.two_buckets eq_refl)
                  _ _ eq_refl) as [tags [Hrun Htags]].
  exists tags. split; [reflexivity|]. split; [exact Hrun | exact Htags].
Defined.

Lemma EmptyS3BucketE_pagination_witness :
  let s := Mem.start Stores.three_versions in
  let client := Some (@NewFromConfig Mem.sdk tt) in
  exists listing,
    @handle Mem.sdk tt (ListObjectVersions (first_page "data")) Stores.three_versions =
      (Some listing, None, Stores.three_versions) /\
    IsTruncated listing = Some true /\
    NextKeyMarker listing = Some "b" /\
    EmptyS3BucketE_loop 2 client "data" (first_page "data") s =
    EmptyS3BucketE_loop 1 client "data" (next_page (first_page "data") "b")
      (Mem.state (snd (@handle Mem.sdk tt (bulk_delete "data" listing) Stores.three_versions))
                 [ListObjectVersions (first_page "data"); bulk_delete "data" listing]).
Proof.
  intros s client. eexists. split; [reflexivity|]. split; [reflexivity|].
  split; [reflexivity|].
  destruct (EmptyS3BucketE_pagination (sdk := Mem.sdk) tt "data" (first_page "data") s
              _ _ 1 eq_refl) as [_ Hversions].
  destruct (Hversions ltac:(discriminate) _ _ eq_refl) as [Hnext _].
  exact (Hnext "b" eq_refl eq_refl).
Defined.

Lemma EmptyS3BucketE_terminates_witness :
  @NewAuthenticatedSession Mem.sdk "eu-west-1" Stores.three_versions =
    (Some tt, None, Stores.three_versions) /\
  ChainEnds (sdk := Mem.sdk) tt "data" Stores.three_versions (first_page "data") /\
  exists fuel r s',
    forall fuel', fuel <= fuel' ->
      EmptyS3BucketE fuel' "eu-west-1" "data" (Mem.start Stores.three_versions) =
      (Returned r, s').
Proof.
  assert (ChainEnds (sdk := Mem.sdk) tt "data" Stores.three_versions (first_page "data"))
    as Hchain.
  { eapply chain_truncated; [reflexivity | reflexivity | reflexivity | reflexivity |].
    eapply chain_not_truncated; reflexivity. }
  split; [reflexivity|]. split; [exact Hchain|].
  apply (EmptyS3BucketE_terminates (sdk := Mem.sdk) "eu-west-1" "data"
           (Mem.start Stores.three_versions) (Some tt) None Stores.three_versions eq_refl).
  intros _. exists tt. split; [reflexivity | exact Hchain].
Defined.

Lemma FindS3BucketWithTagE_not_found_witness :
  no_bucket_carries (sdk := Mem.sdk) tt "env" "qa"
    [ {| Name := Some "alpha" |}; {| Name := Some "beta" |} ] Stores.two_buckets /\
  exists s',
    FindS3BucketWithTagE "eu-west-1" "env" "qa" (Mem.start Stores.two_buckets) =
    (Returned ("", None), s').
Proof.
  assert (no_bucket_carries (sdk := Mem.sdk) tt "env" "qa"
            [ {| Name := Some "alpha" |}; {| Name := Some "beta" |} ] Stores.two_buckets)
    as Hnone.
  { repeat split. }
  split; [exact Hnone|].
  exact (FindS3BucketWithTagE_not_found (sdk := Mem.sdk) "eu-west-1" "env" "qa"
           (Mem.start Stores.two_buckets) tt Stores.two_buckets
           {| Buckets := [ {| Name := Some "alpha" |}; {| Name := Some "beta" |} ] |}
           Stores.two_buckets eq_refl eq_refl Hnone).
Defined.

Lemma requests_per_helper_witness :
  calls (snd (error_returning (CallDeleteS3Bucket "eu-west-1" "alpha")
                (Mem.start Stores.two_buckets))) =
  [] ++ [DeleteBucket (Some "alpha")].
Proof.
  exact (proj1 (requests_per_helper (sdk := Mem.sdk))
           (CallDeleteS3Bucket "eu-west-1" "alpha") _ (Mem.start Stores.two_buckets)
           tt Stores.two_buckets eq_refl eq_refl).
Defined.

Lemma sdk_errors_pass_through_witness :
  error_returning (CallGetS3BucketPolicy "eu-west-1" "alpha") (Mem.start Stores.two_buckets) =
  (Returned (VString "", Some (ErrSdk (SdkError "NoSuchBucketPolicy"))),
   Mem.state Stores.two_buckets ([] ++ [GetBucketPolicy (Some "alpha")])).
Proof.
  exact (proj1 (sdk_errors_pass_through (sdk := Mem.sdk))
           (CallGetS3BucketPolicy "eu-west-1" "alpha") _ (Mem.start Stores.two_buckets)
           tt Stores.two_buckets None (SdkError "NoSuchBucketPolicy") Stores.two_buckets
           eq_refl eq_refl eq_refl).
Defined.

(** ** Further properties of the helpers *)

Section Replies.
Context `{sdk : Sdk}.

Ltac unfold_getters :=
  unfold GetS3BucketLoggingTargetE, GetS3BucketLoggingTargetPrefixE,
    AssertS3BucketVersioningExistsE, AssertS3BucketPolicyExistsE,
    GetS3BucketVersioningE, GetS3BucketPolicyE, GetS3BucketOwnershipControlsE,
    GetS3ObjectContentsE, NewS3ClientE, call_NewAuthenticatedSession, invoke, Logf,
    bind, deref, ret, panic.

(** Closes the run of a getter once the session and the reply are known. *)
Ltac run_getter Hs Hreply :=
  unfold_getters; rewrite Hs; cbn [client_config world calls]; rewrite Hreply;
  cbn [fst snd].

(** X1. With access logging not enabled both logging getters return the
    empty string and [S3AccessLoggingNotEnabledErr] for the bucket and
    region; with logging enabled they return the target bucket and the
    target prefix, a nil field reading as the empty string. *)
Theorem GetS3BucketLogging_cases (awsRegion bucket : string) (s : State) cfg w1 res w2 :
  NewAuthenticatedSession awsRegion (world s) = (Some cfg, None, w1) ->
  handle cfg (GetBucketLogging (Some bucket)) w1 = (Some res, None, w2) ->
  let s' := {| world := w2; calls := calls s ++ [GetBucketLogging (Some bucket)] |} in
  (LoggingEnabled_ res = None ->
   GetS3BucketLoggingTargetE awsRegion bucket s =
     (Returned ("", Some (S3AccessLoggingNotEnabledErr bucket awsRegion)), s') /\
   GetS3BucketLoggingTargetPrefixE awsRegion bucket s =
     (Returned ("", Some (S3AccessLoggingNotEnabledErr bucket awsRegion)), s')) /\
  (forall le, LoggingEnabled_ res = Some le ->
   GetS3BucketLoggingTargetE awsRegion bucket s =
     (Returned (ToString (TargetBucket le), None), s') /\
   GetS3BucketLoggingTargetPrefixE awsRegion bucket s =
     (Returned (ToString (TargetPrefix le), None), s')).
Proof.
  intros Hs Hreply s'. subst s'. split.
  - intros Hnil. split; run_getter Hs Hreply; rewrite Hnil; reflexivity.
  - intros le Hle. split; run_getter Hs Hreply; rewrite Hle; reflexivity.
Qed.

(** X2. Given the versioning status the store reports,
    [AssertS3BucketVersioningExistsE] returns nil exactly when the status is
    "Enabled"; for any other status, the empty one included, it returns the
    versioning-not-enabled error for the bucket, region and status. *)
Theorem AssertS3BucketVersioningExistsE_cases (region bucketName : string) (s : State)
    cfg w1 res w2 :
  NewAuthenticatedSession region (world s) = (Some cfg, None, w1) ->
  handle cfg (GetBucketVersioning (Some bucketName)) w1 = (Some res, None, w2) ->
  let s' := {| world := w2; calls := calls s ++ [GetBucketVersioning (Some bucketName)] |} in
  (Status res = "Enabled" ->
   AssertS3BucketVersioningExistsE region bucketName s = (Returned None, s')) /\
  (Status res <> "Enabled" ->
   AssertS3BucketVersioningExistsE region bucketName s =
   (Returned (Some (BucketVersioningNotEnabledError bucketName region (Status res))), s')).
Proof.
  intros Hs Hreply s'. subst s'.
  split; intros Hstatus; run_getter Hs Hreply;
    destruct (String.eqb_spec (Status res) "Enabled"); try reflexivity; contradiction.
Qed.

(** X3. Given the policy the store reports, [AssertS3BucketPolicyExistsE]
    returns nil exactly when the policy is a non-empty string; a nil policy
    and an empty policy both give the no-bucket-policy error. *)
Theorem AssertS3BucketPolicyExistsE_cases (region bucketName : string) (s : State)
    cfg w1 res w2 :
  NewAuthenticatedSession region (world s) = (Some cfg, None, w1) ->
  handle cfg (GetBucketPolicy (Some bucketName)) w1 = (Some res, None, w2) ->
  let s' := {| world := w2; calls := calls s ++ [GetBucketPolicy (Some bucketName)] |} in
  (forall policy, Policy res = Some policy -> policy <> "" ->
   AssertS3BucketPolicyExistsE region bucketName s = (Returned None, s')) /\
  (Policy res = None \/ Policy res = Some "" ->
   AssertS3BucketPolicyExistsE region bucketName s =
   (Returned (Some (NoBucketPolicyError bucketName region "")), s')).
Proof.
  intros Hs Hreply s'. subst s'. split.
  - intros policy Hpolicy Hne. run_getter Hs Hreply. rewrite Hpolicy. cbn [ToString].
    destruct (String.eqb_spec policy ""); [contradiction | reflexivity].
  - intros [Hpolicy|Hpolicy]; run_getter Hs Hreply; rewrite Hpolicy; reflexivity.
Qed.

(** X4. [GetS3BucketOwnershipControlsE] returns the object-ownership
    setting of every rule of the reply, one string per rule and in the order
    of the rules, as a non-nil slice even when there is no rule; a reply
    without ownership controls makes it panic. *)
Theorem GetS3BucketOwnershipControlsE_cases (awsRegion bucket : string) (s : State)
    cfg w1 out w2 :
  NewAuthenticatedSession awsRegion (world s) = (Some cfg, None, w1) ->
  handle cfg (GetBucketOwnershipControls (Some bucket)) w1 = (Some out, None, w2) ->
  let s' := {| world := w2;
               calls := calls s ++ [GetBucketOwnershipControls (Some bucket)] |} in
  (forall controls, OwnershipControls_ out = Some controls ->
   GetS3BucketOwnershipControlsE awsRegion bucket s =
   (Returned (Some (map rule_ObjectOwnership (Rules controls)), None), s')) /\
  (OwnershipControls_ out = None ->
   GetS3BucketOwnershipControlsE awsRegion bucket s = (Panicked, s')).
Proof.
  intros Hs Hreply s'. subst s'. split.
  - intros controls Hcontrols. run_getter Hs Hreply. rewrite Hcontrols.
    rewrite (append_loop_map rule_ObjectOwnership). reflexivity.
  - intros Hnil. run_getter Hs Hreply. rewrite Hnil. reflexivity.
Qed.

(** X5. [GetS3ObjectContentsE] returns what reading the body of the reply
    to the end yields; when the read fails it returns the empty string with
    the read error, whatever had been read. *)
Theorem GetS3ObjectContentsE_cases (awsRegion bucket key : string) (s : State)
    cfg w1 res w2 :
  NewAuthenticatedSession awsRegion (world s) = (Some cfg, None, w1) ->
  handle cfg (GetObject (Some bucket) (Some key)) w1 = (Some res, None, w2) ->
  let s' := {| world := w2; calls := calls s ++ [GetObject (Some bucket) (Some key)] |} in
  (reader_err (Body res) = None ->
   GetS3ObjectContentsE awsRegion bucket key s =
   (Returned (reader_data (Body res), None), s')) /\
  (forall e, reader_err (Body res) = Some e ->
   GetS3ObjectContentsE awsRegion bucket key s = (Returned ("", Some e), s')).
Proof.
  intros Hs Hreply s'. subst s'. split.
  - intros Hread. run_getter Hs Hreply. rewrite Hread. reflexivity.
  - intros e Hread. run_getter Hs Hreply. rewrite Hread. reflexivity.
Qed.

End Replies.

Section ClientErrors.
Context `{sdk : Sdk}.

Ltac unfold_all_helpers :=
  unfold with_value, without_value,
    FindS3BucketWithTagE, GetS3BucketTagsE, GetS3ObjectContentsE, PutS3ObjectContentsE,
    CreateS3BucketE, PutS3BucketPolicyE, PutS3BucketVersioningE, DeleteS3BucketE,
    EmptyS3BucketE, GetS3BucketLoggingTargetE, GetS3BucketLoggingTargetPrefixE,
    AssertS3BucketExistsE, AssertS3BucketVersioningExistsE, AssertS3BucketPolicyExistsE,
    GetS3BucketVersioningE, GetS3BucketPolicyE, GetS3BucketOwnershipControlsE,
    NewS3ClientE, NewS3UploaderE, call_NewAuthenticatedSession, Logf, bind, deref, ret,
    panic.

(** X6. When the client cannot be built, every helper returns at once with
    the zero value of its result type and sends no request; the error is the
    one of the construction itself, except that [PutS3ObjectContentsE] wraps
    it as "failed to instantiate s3 client: %w". *)
Theorem client_construction_error (h : Helper) (s : State) sess e w1 :
  NewAuthenticatedSession (helper_region h) (world s) = (sess, Some e, w1) ->
  error_returning h s =
  (Returned (zero_value h, Some (client_error h e)), {| world := w1; calls := calls s |}).
Proof.
  intros Hs.
  destruct h; cbn [helper_region] in Hs; cbn [error_returning zero_value client_error];
    unfold_all_helpers; rewrite Hs; reflexivity.
Qed.

(** A session that is nil without an error makes every helper panic on
    [*sess] before any request is sent. *)
Lemma nil_session_panics (h : Helper) (s : State) w1 :
  NewAuthenticatedSession (helper_region h) (world s) = (None, None, w1) ->
  error_returning h s = (Panicked, {| world := w1; calls := calls s |}).
Proof.
  intros Hs.
  destruct h; cbn [helper_region] in Hs; cbn [error_returning];
    unfold_all_helpers; rewrite Hs; reflexivity.
Qed.

End ClientErrors.

Section Search.
Context `{sdk : Sdk}.

(** The inner loop ends in a verdict or in a panic. *)
Lemma FindS3BucketWithTagE_tags_outcome key value tags (s : State) :
  FindS3BucketWithTagE_tags key value tags s = (Panicked, s) \/
  exists found, FindS3BucketWithTagE_tags key value tags s = (Returned found, s).
Proof.
  induction tags as [|tag rest IH]; cbn [FindS3BucketWithTagE_tags].
  - right. eexists. reflexivity.
  - destruct (Key tag) as [k|]; [|left; reflexivity].
    cbn [deref]. rewrite (bind_run _ _ s k s) by reflexivity.
    destruct (String.eqb k key); [|exact IH].
    destruct (Value tag) as [v|]; [|left; reflexivity].
    cbn [deref]. rewrite (bind_run _ _ s v s) by reflexivity.
    destruct (String.eqb v value); [right; eexists; reflexivity | exact IH].
Qed.

(** A tag set that shows the pair makes the inner loop say so. *)
Lemma FindS3BucketWithTagE_tags_found key value tags (s : State) :
  carries_pair key value tags ->
  FindS3BucketWithTagE_tags key value tags s = (Returned true, s).
Proof.
  intros (before & tag & after & -> & Hbefore & Hkey & Hvalue).
  induction before as [|t before IH]; cbn [app FindS3BucketWithTagE_tags].
  - rewrite Hkey, Hvalue. cbn [deref].
    rewrite (bind_run _ _ s key s) by reflexivity. rewrite String.eqb_refl.
    rewrite (bind_run _ _ s value s) by reflexivity. rewrite String.eqb_refl.
    reflexivity.
  - cbn [forallb] in Hbefore. apply andb_prop in Hbefore as [Ht Hbefore].
    unfold other_tag in Ht.
    destruct (Key t) as [k|]; [|discriminate].
    destruct (Value t) as [v|]; [|discriminate].
    cbn [deref]. rewrite (bind_run _ _ s k s) by reflexivity.
    destruct (String.eqb k key); [|exact (IH Hbefore)].
    rewrite (bind_run _ _ s v s) by reflexivity.
    destruct (String.eqb v value); [discriminate | exact (IH Hbefore)].
Qed.

(** The scan ends the search with the name of its bucket, or panics, or
    hands over to the next bucket. *)
Lemma FindS3BucketWithTagE_scan_outcome bucket key value out next (s : State) :
  FindS3BucketWithTagE_scan bucket key value out next s = next s \/
  FindS3BucketWithTagE_scan bucket key value out next s = (Panicked, s) \/
  exists name,
    Name bucket = Some name /\
    FindS3BucketWithTagE_scan bucket key value out next s = (Returned (name, None), s).
Proof.
  unfold FindS3BucketWithTagE_scan. destruct out as [resp|]; [|right; left; reflexivity].
  cbn [deref]. rewrite (bind_run _ _ s resp s) by reflexivity.
  destruct (FindS3BucketWithTagE_tags_outcome key value (TagSet resp) s) as [Ho|[found Ho]].
  - right. left. unfold bind at 1. rewrite Ho. reflexivity.
  - rewrite (bind_run _ _ _ _ _ Ho). destruct found; [|left; reflexivity].
    destruct (Name bucket) as [name|]; [|right; left; reflexivity].
    right. right. exists name. split; reflexivity.
Qed.

(** A bucket whose reply shows no such pair is passed over. *)
Lemma FindS3BucketWithTagE_buckets_skip cfg key value bucket rest (s : State) :
  without_tag_pair key value (fst (handle cfg (tagging_request bucket) (world s))) = true ->
  FindS3BucketWithTagE_buckets (Some (NewFromConfig cfg)) key value (bucket :: rest) s =
  FindS3BucketWithTagE_buckets (Some (NewFromConfig cfg)) key value rest (asked cfg [bucket] s).
Proof.
  intros Hreply. rewrite FindS3BucketWithTagE_buckets_cons. cbv zeta. cbn [asked].
  destruct (handle cfg (tagging_request bucket) (world s)) as [[[out|] [e|]] w1];
    cbn [fst snd without_tag_pair] in *.
  - rewrite Hreply. reflexivity.
  - unfold FindS3BucketWithTagE_scan. cbn [deref].
    rewrite (bind_run _ _ _ out _) by reflexivity.
    rewrite (bind_run _ _ _ _ _ (FindS3BucketWithTagE_tags_none _ _ _ _ Hreply)).
    reflexivity.
  - rewrite Hreply. reflexivity.
  - discriminate.
Qed.

Lemma asked_app cfg before after (s : State) :
  asked cfg (before ++ after) s = asked cfg after (asked cfg before s).
Proof.
  revert s. induction before as [|b before IH]; intros s; [reflexivity|].
  cbn [app asked]. apply IH.
Qed.

Lemma asked_calls cfg buckets (s : State) :
  calls (asked cfg buckets s) = calls s ++ map tagging_request buckets.
Proof.
  revert s. induction buckets as [|b buckets IH]; intros s; cbn [asked map].
  - rewrite app_nil_r. reflexivity.
  - rewrite IH. cbn [calls]. rewrite <- app_assoc. reflexivity.
Qed.

Lemma FindS3BucketWithTagE_buckets_first_match cfg key value before bucket after
    (s : State) out name :
  no_bucket_carries cfg key value before (world s) ->
  fst (handle cfg (tagging_request bucket) (world (asked cfg before s))) = (Some out, None) ->
  carries_pair key value (TagSet out) ->
  Name bucket = Some name ->
  FindS3BucketWithTagE_buckets (Some (NewFromConfig cfg)) key value
    (before ++ bucket :: after) s =
  (Returned (name, None), asked cfg (before ++ [bucket]) s).
Proof.
  revert s. induction before as [|b before IH]; intros s Hnone Hreply Hpair Hname.
  - cbn [app asked] in *. rewrite FindS3BucketWithTagE_buckets_cons. cbv zeta.
    rewrite Hreply. cbn [fst snd]. unfold FindS3BucketWithTagE_scan. cbn [deref].
    rewrite (bind_run _ _ _ out _) by reflexivity.
    rewrite (bind_run _ _ _ _ _ (FindS3BucketWithTagE_tags_found _ _ _ _ Hpair)).
    rewrite Hname. reflexivity.
  - cbn [no_bucket_carries] in Hnone. destruct Hnone as [Hb Hnone].
    cbn [app]. rewrite (FindS3BucketWithTagE_buckets_skip _ _ _ _ _ _ Hb).
    cbn [asked] in *. apply IH; assumption.
Qed.

(** X7. [FindS3BucketWithTagE] returns the first listed bucket whose tag set
    shows the pair: when the buckets listed before it show no such pair, it
    returns that bucket's name with a nil error, and the buckets listed
    after it are not asked for their tags. *)
Theorem FindS3BucketWithTagE_first_match (awsRegion key value : string) (s : State)
    cfg w1 resp w2 before bucket after out name :
  NewAuthenticatedSession awsRegion (world s) = (Some cfg, None, w1) ->
  handle cfg ListBuckets w1 = (Some resp, None, w2) ->
  Buckets resp = before ++ bucket :: after ->
  let listed := {| world := w2; calls := calls s ++ [ListBuckets] |} in
  no_bucket_carries cfg key value before w2 ->
  fst (handle cfg (tagging_request bucket) (world (asked cfg before listed))) =
    (Some out, None) ->
  carries_pair key value (TagSet out) ->
  Name bucket = Some name ->
  FindS3BucketWithTagE awsRegion key value s =
    (Returned (name, None), asked cfg (before ++ [bucket]) listed) /\
  calls (asked cfg (before ++ [bucket]) listed) =
    calls s ++ ListBuckets :: map tagging_request (before ++ [bucket]).
Proof.
  intros Hs Hlist Hbuckets listed Hnone Hreply Hpair Hname. split.
  - unfold FindS3BucketWithTagE.
    rewrite (bind_run _ _ _ _ _ (NewS3ClientE_ok _ _ _ _ Hs)).
    unfold bind at 1. rewrite invoke_run. cbn [world calls]. rewrite Hlist.
    cbn [fst snd deref]. rewrite (bind_run _ _ _ resp _) by reflexivity.
    rewrite Hbuckets.
    apply FindS3BucketWithTagE_buckets_first_match with (out := out); assumption.
  - rewrite asked_calls. subst listed. cbn [calls]. rewrite <- app_assoc. reflexivity.
Qed.

Lemma FindS3BucketWithTagE_buckets_result cfg key value buckets (s : State) name err s' :
  FindS3BucketWithTagE_buckets (Some (NewFromConfig cfg)) key value buckets s =
    (Returned (name, err), s') ->
  (err = None \/ name = "") /\
  (name <> "" -> exists bucket, In bucket buckets /\ Name bucket = Some name).
Proof.
  revert s. induction buckets as [|bucket rest IH]; intros s.
  - cbn. intros [= <- <- _]. split; [left; reflexivity | intros Hne; contradiction].
  - rewrite FindS3BucketWithTagE_buckets_cons. cbv zeta.
    set (s1 := {| world := _; calls := _ |}).
    assert (forall r, FindS3BucketWithTagE_buckets (Some (NewFromConfig cfg)) key value rest s1
                      = r -> r = (Returned (name, err), s') ->
              (err = None \/ name = "") /\
              (name <> "" -> exists b, In b (bucket :: rest) /\ Name b = Some name)) as Hnext.
    { intros r <- Hrun. destruct (IH s1 Hrun) as [Hshape Hlisted]. split; [exact Hshape|].
      intros Hne. destruct (Hlisted Hne) as (b & Hin & Hb). exists b. split; [right|]; auto. }
    assert (forall out,
              FindS3BucketWithTagE_scan bucket key value out
                (FindS3BucketWithTagE_buckets (Some (NewFromConfig cfg)) key value rest) s1
              = (Returned (name, err), s') ->
              (err = None \/ name = "") /\
              (name <> "" -> exists b, In b (bucket :: rest) /\ Name b = Some name)) as Hscan.
    { intros out Hrun.
      destruct (FindS3BucketWithTagE_scan_outcome bucket key value out
                  (FindS3BucketWithTagE_buckets (Some (NewFromConfig cfg)) key value rest) s1)
        as [Heq|[Heq|(n & Hn & Heq)]]; rewrite Heq in Hrun.
      - exact (Hnext _ eq_refl Hrun).
      - discriminate.
      - injection Hrun as <- <- _. split; [left; reflexivity|].
        intros _. exists bucket. split; [left; reflexivity | exact Hn]. }
    destruct (snd (fst (handle cfg (tagging_request bucket) (world s)))) as [e|];
      [|apply Hscan].
    destruct (skipped e); [intros Hrun; exact (Hnext _ eq_refl Hrun)|].
    destruct (tolerated e); [apply Hscan|].
    intros [= <- <- _]. split; [right; reflexivity | intros Hne; contradiction].
Qed.

Lemma FindS3BucketWithTagE_returned (awsRegion key value : string) (s : State) name err s' :
  FindS3BucketWithTagE awsRegion key value s = (Returned (name, err), s') ->
  (err = None \/ name = "") /\
  (name <> "" ->
   exists cfg w1 resp w2 bucket,
     NewAuthenticatedSession awsRegion (world s) = (Some cfg, None, w1) /\
     handle cfg ListBuckets w1 = (Some resp, None, w2) /\
     In bucket (Buckets resp) /\ Name bucket = Some name).
Proof.
  unfold FindS3BucketWithTagE.
  destruct (NewAuthenticatedSession awsRegion (world s)) as [[[cfg|] [e|]] w1] eqn:Hs.
  1, 3: rewrite (bind_run _ _ _ _ _ (NewS3ClientE_error _ _ _ _ _ Hs));
        intros [= <- <- _]; split; [right; reflexivity | intros Hne; contradiction].
  2: { unfold NewS3ClientE, call_NewAuthenticatedSession, bind. rewrite Hs. discriminate. }
  rewrite (bind_run _ _ _ _ _ (NewS3ClientE_ok _ _ _ _ Hs)).
  unfold bind at 1. rewrite invoke_run. cbn [world calls].
  destruct (handle cfg ListBuckets w1) as [[[resp|] [e|]] w2] eqn:Hlist; cbn [fst snd];
    try (intros [= <- <- _]; split; [right; reflexivity | intros Hne; contradiction]);
    try discriminate.
  cbn [deref]. rewrite (bind_run _ _ _ resp _) by reflexivity.
  intros Hrun. destruct (FindS3BucketWithTagE_buckets_result _ _ _ _ _ _ _ _ Hrun)
    as [Hshape Hlisted].
  split; [exact Hshape|]. intros Hne. destruct (Hlisted Hne) as (b & Hin & Hb).
  exists cfg, w1, resp, w2, b. repeat split; assumption.
Qed.

(** X8. Whatever [FindS3BucketWithTagE] returns, a non-nil error comes with
    the empty name, and a non-empty name is the name of a bucket of the
    listing the store answered with. *)
Theorem FindS3BucketWithTagE_result (awsRegion key value : string) (s : State) name err s' :
  FindS3BucketWithTagE awsRegion key value s = (Returned (name, err), s') ->
  (err = None \/ name = "") /\
  (name <> "" ->
   exists cfg w1 resp w2 bucket,
     NewAuthenticatedSession awsRegion (world s) = (Some cfg, None, w1) /\
     handle cfg ListBuckets w1 = (Some resp, None, w2) /\
     In bucket (Buckets resp) /\ Name bucket = Some name).
Proof. apply FindS3BucketWithTagE_returned. Qed.

End Search.

Section RequestKinds.
Context `{sdk : Sdk}.

Lemma listed_identifiers_nonempty (listing : ListObjectVersionsOutput) :
  Nat.eqb (length (Versions listing)) 0 = false -> listed_identifiers listing <> [].
Proof.
  unfold listed_identifiers. destruct (Versions listing); [discriminate|].
  intros _. discriminate.
Qed.

(** The loop asks only for listings of its bucket and for bulk deletes that
    name something. *)
Lemma EmptyS3BucketE_loop_requests fuel cfg name params (s : State) :
  lov_Bucket params = Some name ->
  exists reqs,
    calls (snd (EmptyS3BucketE_loop fuel (Some (NewFromConfig cfg)) name params s)) =
      calls s ++ reqs /\
    Forall (empties name) reqs.
Proof.
  revert params s. induction fuel as [|fuel IH]; intros params s Hbucket.
  - exists []. split; [cbn; rewrite app_nil_r; reflexivity | constructor].
  - rewrite EmptyS3BucketE_loop_S, EmptyS3BucketE_body_run.
    assert (Forall (empties name) [ListObjectVersions params]) as Hlist.
    { repeat constructor. exact Hbucket. }
    destruct (handle cfg (ListObjectVersions params) (world s)) as [[[listing|] [e|]] w1];
      try (exists [ListObjectVersions params]; split; [reflexivity | exact Hlist]).
    destruct (Nat.eqb (length (Versions listing)) 0) eqn:Hlen;
      [exists [ListObjectVersions params]; split; [reflexivity | exact Hlist]|].
    assert (Forall (empties name) [ListObjectVersions params; bulk_delete name listing])
      as Hboth.
    { repeat constructor; [exact Hbucket|]. cbn. apply listed_identifiers_nonempty, Hlen. }
    cbv zeta.
    destruct (handle cfg (bulk_delete name listing) w1) as [[out [e|]] w2];
      [eexists; split; [|exact Hboth]; cbn [snd calls]; rewrite <- app_assoc; reflexivity|].
    destruct (IsTruncated listing) as [[|]|];
      try (eexists; split; [|exact Hboth]; cbn [snd calls]; rewrite <- app_assoc;
           reflexivity).
    destruct (NextKeyMarker listing) as [k|];
      [|eexists; split; [|exact Hboth]; cbn [snd calls]; rewrite <- app_assoc; reflexivity].
    destruct (IH (next_page params k)
                 {| world := w2;
                    calls := (calls s ++ [ListObjectVersions params]) ++
                             [bulk_delete name listing] |} Hbucket)
      as (reqs & Hcalls & Hreqs).
    exists ([ListObjectVersions params; bulk_delete name listing] ++ reqs). split.
    + rewrite Hcalls. cbn [calls]. rewrite <- !app_assoc. reflexivity.
    + apply Forall_app. split; assumption.
Qed.

(** A continuation that leaves the state alone does not change the log. *)
Lemma bind_pure_calls {A B} (m : Prog State A) (k : A -> Prog State B) (s : State) :
  (forall a s0, snd (k a s0) = s0) ->
  snd (bind m k s) = snd (m s).
Proof.
  intros Hk. unfold bind. destruct (m s) as [[a| |e|] s1]; cbn [snd]; [apply Hk|..];
    reflexivity.
Qed.

(** X9. Every request [EmptyS3BucketE] sends is a listing of the versions of
    the named bucket or a bulk delete in that bucket naming at least one
    object: it touches no other bucket and never sends an empty delete. *)
Theorem EmptyS3BucketE_requests (fuel : nat) (region name : string) (s : State) :
  exists reqs,
    calls (snd (EmptyS3BucketE fuel region name s)) = calls s ++ reqs /\
    Forall (empties name) reqs.
Proof.
  unfold EmptyS3BucketE. rewrite (bind_run _ _ s tt s) by reflexivity.
  destruct (NewAuthenticatedSession region (world s)) as [[[cfg|] [e|]] w1] eqn:Hs.
  1, 3: rewrite (bind_run _ _ _ _ _ (NewS3ClientE_error _ _ _ _ _ Hs));
        exists []; split; [cbn; rewrite app_nil_r; reflexivity | constructor].
  2: { exists []. split; [|constructor].
       unfold NewS3ClientE, call_NewAuthenticatedSession, bind. rewrite Hs. cbn.
       rewrite app_nil_r. reflexivity. }
  rewrite (bind_run _ _ _ _ _ (NewS3ClientE_ok _ _ _ _ Hs)).
  cbv zeta. unfold String_ptr. fold (first_page name).
  destruct (EmptyS3BucketE_loop_requests fuel cfg name (first_page name)
              {| world := w1; calls := calls s |} eq_refl) as (reqs & Hcalls & Hreqs).
  exists reqs. split; [|exact Hreqs].
  rewrite bind_pure_calls; [exact Hcalls|].
  intros [r| |p] s0; reflexivity.
Qed.

Lemma with_value_snd {A} (inj : A -> HelperValue) (m : Prog State (A * option error))
    (s : State) :
  snd (with_value inj m s) = snd (m s).
Proof. unfold with_value. apply bind_pure_calls. intros [a err] s0. reflexivity. Qed.

Lemma FindS3BucketWithTagE_reads awsRegion key value (s : State) :
  exists reqs,
    calls (snd (FindS3BucketWithTagE awsRegion key value s)) = calls s ++ reqs /\
    Forall (fun r => mutating r = false) reqs.
Proof.
  destruct (NewAuthenticatedSession awsRegion (world s)) as [[[cfg|] [e|]] w1] eqn:Hs.
  1, 3: exists []; split; [|constructor]; unfold FindS3BucketWithTagE;
        rewrite (bind_run _ _ _ _ _ (NewS3ClientE_error _ _ _ _ _ Hs)); cbn;
        rewrite app_nil_r; reflexivity.
  2: { exists []. split; [|constructor]. unfold FindS3BucketWithTagE.
       unfold NewS3ClientE, call_NewAuthenticatedSession, bind. rewrite Hs. cbn.
       rewrite app_nil_r. reflexivity. }
  destruct (handle cfg ListBuckets w1) as [[[resp|] [e|]] w2] eqn:Hlist.
  2: { destruct (FindS3BucketWithTagE_calls awsRegion key value s cfg w1 resp w2 Hs Hlist)
         as (examined & _ & Hcalls).
       eexists. split; [exact Hcalls|]. constructor; [reflexivity|].
       apply List.Forall_forall. intros r [b [<- _]]%in_map_iff. reflexivity. }
  all: exists [ListBuckets]; split; [|repeat constructor]; unfold FindS3BucketWithTagE;
       rewrite (bind_run _ _ _ _ _ (NewS3ClientE_ok _ _ _ _ Hs));
       unfold bind at 1; rewrite invoke_run; cbn [world calls]; rewrite Hlist; reflexivity.
Qed.

(** X10. The helpers that find, get or assert something, and the two
    constructors, never send a request that changes the store. *)
Theorem reading_helpers_do_not_mutate (h : Helper) (s : State) :
  reading_helper h = true ->
  exists reqs,
    calls (snd (error_returning h s)) = calls s ++ reqs /\
    Forall (fun r => mutating r = false) reqs.
Proof.
  intros Hread.
  destruct (sdk_request h) as [req|] eqn:Hreq.
  - destruct (NewAuthenticatedSession (helper_region h) (world s))
      as [[[cfg|] [e|]] w1] eqn:Hs.
    1, 3: exists []; split; [|constructor];
          rewrite (no_client_no_request h s _ _ _ Hs), app_nil_r; reflexivity.
    2: { exists []. split; [|constructor].
         rewrite (nil_session_panics h s _ Hs). cbn. rewrite app_nil_r. reflexivity. }
    exists [req]. split; [exact (single_request_calls h req s cfg w1 Hreq Hs)|].
    repeat constructor.
    destruct h; try discriminate Hread; cbn [sdk_request] in Hreq;
      try discriminate Hreq; injection Hreq as <-; reflexivity.
  - destruct h; try discriminate Hreq; try discriminate Hread; cbn [error_returning];
      rewrite with_value_snd.
    + apply FindS3BucketWithTagE_reads.
    + exists []. split; [|constructor]. rewrite NewS3ClientE_calls, app_nil_r. reflexivity.
    + exists []. split; [|constructor]. rewrite NewS3UploaderE_calls, app_nil_r. reflexivity.
Qed.

End RequestKinds.

Section ZeroValues.
Context `{sdk : Sdk}.

Lemma with_value_returned {A} (inj : A -> HelperValue) (m : Prog State (A * option error))
    (s : State) v err s' :
  with_value inj m s = (Returned (v, err), s') ->
  exists a, m s = (Returned (a, err), s') /\ v = inj a.
Proof.
  unfold with_value, bind. destruct (m s) as [[[a err0]| |e|] s1]; try discriminate.
  intros [= <- <- <-]. exists a. split; reflexivity.
Qed.

(** Splits a getter along the session and the reply, and reads the result
    off each branch. *)
Ltac by_replies :=
  unfold GetS3BucketTagsE, GetS3ObjectContentsE, GetS3BucketLoggingTargetE,
    GetS3BucketLoggingTargetPrefixE, GetS3BucketVersioningE, GetS3BucketPolicyE,
    GetS3BucketOwnershipControlsE, NewS3ClientE, NewS3UploaderE,
    call_NewAuthenticatedSession, invoke, Logf, bind, deref, ret, panic;
  repeat match goal with
         | |- context [NewAuthenticatedSession ?r ?w] =>
             destruct (NewAuthenticatedSession r w) as [[[?|] [?|]] ?]
         | |- context [handle ?c ?r ?w] => destruct (handle c r w) as [[[?|] [?|]] ?]
         | |- context [match reader_err ?x with _ => _ end] => destruct (reader_err x)
         | |- context [match LoggingEnabled_ ?x with _ => _ end] =>
             destruct (LoggingEnabled_ x)
         | |- context [match OwnershipControls_ ?x with _ => _ end] =>
             destruct (OwnershipControls_ x)
         end;
  cbn [fst snd client_config world calls];
  intros Hrun; try discriminate Hrun; injection Hrun as <-; intros; reflexivity.

(** X11. Whenever an error-returning helper returns a non-nil error, the
    value it returns with it is the zero value of its result type: the
    empty string, the nil map, the nil slice or the nil pointer. *)
Theorem error_with_zero_value (h : Helper) (s : State) v e s' :
  error_returning h s = (Returned (v, Some e), s') ->
  v = zero_value h.
Proof.
  destruct h; cbn [error_returning zero_value];
    try (unfold without_value, bind;
         match goal with |- context [match ?m s with _ => _ end] => destruct (m s) as [[?| |?|] ?] end;
         intros Hrun; try discriminate Hrun; injection Hrun as <-; reflexivity);
    intros (a & Hrun & ->)%with_value_returned; f_equal; revert Hrun.
  - intros Hrun.
    destruct (FindS3BucketWithTagE_returned _ _ _ _ _ _ _ Hrun) as [[Herr|Hname] _];
      [discriminate | exact Hname].
  - by_replies.
  - by_replies.
  - by_replies.
  - by_replies.
  - by_replies.
  - by_replies.
  - by_replies.
  - by_replies.
  - by_replies.
Qed.

End ZeroValues.

Section TagMaps.
Context `{sdk : Sdk}.

Abbreviation tags_loop tagset :=
  (fold_left (fun (tags : gmap string string) (tag : Tag) =>
                <[ToString (Key tag) := ToString (Value tag)]> tags)
             tagset (∅ : gmap string string)).

Lemma last_binding_key (tagset : list Tag) (k v : string) :
  last_binding tagset k v -> In k (map tag_key tagset).
Proof.
  intros (before & tag & after & -> & Hk & _ & _).
  rewrite map_app. apply in_or_app. right. left. exact Hk.
Qed.

Lemma tags_loop_size_le (tagset : list Tag) :
  size (tags_loop tagset) <= length tagset.
Proof.
  induction tagset as [|tag tagset IH] using rev_ind; [reflexivity|].
  rewrite tags_loop_snoc, length_app, map_size_insert. cbn [length].
  destruct (_ !! tag_key tag); cbn; lia.
Qed.

Lemma tags_loop_size_distinct (tagset : list Tag) :
  List.NoDup (map tag_key tagset) ->
  size (tags_loop tagset) = length tagset.
Proof.
  induction tagset as [|tag tagset IH] using rev_ind; [reflexivity|].
  rewrite map_app. cbn [map]. intros Hnodup.
  rewrite tags_loop_snoc, length_app, map_size_insert. cbn [length].
  destruct (tags_loop tagset !! tag_key tag) as [v|] eqn:Hlookup.
  - exfalso. apply tags_loop_lookup, last_binding_key in Hlookup.
    apply List.NoDup_remove_2 in Hnodup. rewrite app_nil_r in Hnodup. contradiction.
  - rewrite IH; [lia|]. apply List.NoDup_remove_1 in Hnodup.
    rewrite app_nil_r in Hnodup. exact Hnodup.
Qed.

Lemma tags_loop_keeps_distinct (tagset : list Tag) (tag : Tag) :
  List.NoDup (map tag_key tagset) ->
  In tag tagset ->
  tags_loop tagset !! tag_key tag = Some (tag_value tag).
Proof.
  intros Hnodup Hin. apply tags_loop_lookup.
  apply in_split in Hin as (before & after & ->).
  exists before, tag, after. repeat split; try reflexivity.
  rewrite map_app in Hnodup. cbn [map] in Hnodup.
  apply List.NoDup_remove_2 in Hnodup.
  apply List.Forall_forall. intros later Hlater Heq. apply Hnodup.
  apply in_or_app. right. rewrite <- Heq. apply in_map. exact Hlater.
Qed.

(** X12. The map [GetS3BucketTagsE] returns never has more entries than
    the reply has tags, and when the keys of the tags are pairwise distinct
    no tag is lost: the map has one entry per tag, binding each tag's key to
    its value. *)
Theorem GetS3BucketTagsE_size (awsRegion bucket : string) (s : State) cfg w1 out w2 :
  NewAuthenticatedSession awsRegion (world s) = (Some cfg, None, w1) ->
  handle cfg (GetBucketTagging (Some bucket)) w1 = (Some out, None, w2) ->
  exists tags : gmap string string,
    fst (GetS3BucketTagsE awsRegion bucket s) = Returned (Some tags, None) /\
    size tags <= length (TagSet out) /\
    (List.NoDup (map tag_key (TagSet out)) ->
     size tags = length (TagSet out) /\
     forall tag, In tag (TagSet out) -> tags !! tag_key tag = Some (tag_value tag)).
Proof.
  intros Hs Hreply. exists (tags_loop (TagSet out)). split.
  - unfold GetS3BucketTagsE.
    rewrite (bind_run _ _ _ _ _ (NewS3ClientE_ok _ _ _ _ Hs)).
    unfold bind at 1. rewrite invoke_run. cbn [world calls]. rewrite Hreply.
    reflexivity.
  - split; [apply tags_loop_size_le|].
    intros Hnodup. split; [apply tags_loop_size_distinct, Hnodup|].
    intros tag Hin. apply tags_loop_keeps_distinct; assumption.
Qed.

(** X13. [PutS3BucketVersioningE] sends one request, which sets the
    bucket's versioning status to "Enabled" with MFA delete "Disabled". *)
Theorem PutS3BucketVersioningE_request (region bucketName : string) (s : State) cfg w1 :
  NewAuthenticatedSession region (world s) = (Some cfg, None, w1) ->
  calls (snd (PutS3BucketVersioningE region bucketName s)) =
  calls s ++ [PutBucketVersioning (Some bucketName)
                (Some {| vc_MFADelete := "Disabled"; vc_Status := "Enabled" |})].
Proof.
  intros Hs. unfold PutS3BucketVersioningE.
  rewrite (bind_run _ _ s tt s) by reflexivity.
  rewrite (bind_run _ _ _ _ _ (NewS3ClientE_ok _ _ _ _ Hs)).
  unfold bind at 1. rewrite invoke_run. cbn [world calls].
  match goal with |- context [handle cfg ?r w1] => destruct (handle cfg r w1) as [[o e] w2] end.
  reflexivity.
Qed.

End TagMaps.

(** ** The text of errors *)

Lemma prefix_append (sub rest : string) : String.prefix sub (sub +:+ rest) = true.
Proof.
  induction sub as [|a sub IH]; [destruct rest; reflexivity|].
  change (String a sub +:+ rest) with (String a (sub +:+ rest)).
  cbn [String.prefix].
  destruct (ascii_dec a a) as [_|Hne]; [exact IH | contradiction].
Qed.

Lemma Contains_here (sub rest : string) : Contains (sub +:+ rest) sub = true.
Proof.
  destruct (sub +:+ rest) eqn:E; cbn [Contains]; rewrite <- E, prefix_append; reflexivity.
Qed.

Lemma Contains_later (before s sub : string) :
  Contains s sub = true -> Contains (before +:+ s) sub = true.
Proof.
  intros H. induction before as [|a before IH]; [exact H|].
  change (String a before +:+ s) with (String a (before +:+ s)).
  cbn [Contains]. rewrite IH. apply orb_true_r.
Qed.

Lemma prefix_split (sub s : string) :
  String.prefix sub s = true -> exists after, s = sub +:+ after.
Proof.
  revert s. induction sub as [|a sub IH]; intros s.
  - intros _. exists s. reflexivity.
  - destruct s as [|b s]; cbn [String.prefix]; [discriminate|].
    destruct (ascii_dec a b) as [<-|]; [|discriminate].
    intros [after ->]%IH. exists after. reflexivity.
Qed.

(** [strings.Contains]: [sub] occurs in [s] exactly when [s] is some text,
    then [sub], then some text. *)
Lemma Contains_spec (s sub : string) :
  Contains s sub = true <-> exists before after, s = before +:+ sub +:+ after.
Proof.
  split.
  - induction s as [|a s IH]; cbn [Contains].
    + rewrite orb_false_r. intros [after Heq]%prefix_split.
      exists "", after. exact Heq.
    + intros [Hpre|Hlater]%orb_prop.
      * apply prefix_split in Hpre as [after Heq]. exists "", after. exact Heq.
      * destruct (IH Hlater) as (before & after & ->).
        exists (String a before), after. reflexivity.
  - intros (before & after & ->). apply Contains_later, Contains_here.
Qed.

Lemma append_empty (s : string) : s +:+ "" = s.
Proof.
  induction s as [|a s IH]; [reflexivity|].
  change (String a s +:+ "") with (String a (s +:+ "")). rewrite IH. reflexivity.
Qed.

(** X14. The message of [S3AccessLoggingNotEnabledErr] names the bucket and
    the region the error was built with. *)
Theorem S3AccessLoggingNotEnabledErr_Error_names (OriginBucket Region : string) :
  Contains (S3AccessLoggingNotEnabledErr_Error OriginBucket Region) OriginBucket = true /\
  Contains (S3AccessLoggingNotEnabledErr_Error OriginBucket Region) Region = true.
Proof.
  unfold S3AccessLoggingNotEnabledErr_Error. split.
  - apply Contains_spec. eexists _, _. reflexivity.
  - do 3 apply Contains_later. rewrite <- (append_empty Region) at 1.
    apply Contains_here.
Qed.

(** ** The further properties at concrete inputs *)

Lemma GetS3BucketLogging_cases_witness :
  @NewAuthenticatedSession Configured.sdk "eu-west-1" tt = (Some tt, None, tt) /\
  GetS3BucketLoggingTargetE "eu-west-1" "site" Configured.start =
    (Returned ("site-logs", None),
     @Build_State Configured.sdk tt [GetBucketLogging (Some "site")]) /\
  GetS3BucketLoggingTargetPrefixE "eu-west-1" "site" Configured.start =
    (Returned ("", None),
     @Build_State Configured.sdk tt [GetBucketLogging (Some "site")]).
Proof.
  split; [reflexivity|].
  exact (proj2 (GetS3BucketLogging_cases (sdk := Configured.sdk) "eu-west-1" "site"
                  Configured.start tt tt _ tt eq_refl eq_refl) _ eq_refl).
Defined.

Lemma AssertS3BucketVersioningExistsE_cases_witness :
  @NewAuthenticatedSession Mem.sdk "eu-west-1" Stores.two_buckets =
    (Some tt, None, Stores.two_buckets) /\
  AssertS3BucketVersioningExistsE "eu-west-1" "alpha" (Mem.start Stores.two_buckets) =
    (Returned (Some (BucketVersioningNotEnabledError "alpha" "eu-west-1" "")),
     Mem.state Stores.two_buckets [GetBucketVersioning (Some "alpha")]).
Proof.
  split; [reflexivity|].
  apply (proj2 (AssertS3BucketVersioningExistsE_cases (sdk := Mem.sdk) "eu-west-1" "alpha"
                  (Mem.start Stores.two_buckets) tt Stores.two_buckets
                  {| Status := "" |} Stores.two_buckets eq_refl eq_refl)).
  discriminate.
Defined.

Lemma AssertS3BucketPolicyExistsE_cases_witness :
  @handle Configured.sdk tt (GetBucketPolicy (Some "site")) tt =
    (Some {| Policy := Some "{Version: 2012-10-17}" |}, None, tt) /\
  AssertS3BucketPolicyExistsE "eu-west-1" "site" Configured.start =
    (Returned None, @Build_State Configured.sdk tt [GetBucketPolicy (Some "site")]).
Proof.
  split; [reflexivity|].
  apply (proj1 (AssertS3BucketPolicyExistsE_cases (sdk := Configured.sdk) "eu-west-1" "site"
                  Configured.start tt tt _ tt eq_refl eq_refl) _ eq_refl).
  discriminate.
Defined.

Lemma GetS3BucketOwnershipControlsE_cases_witness :
  @NewAuthenticatedSession Mem.sdk "eu-west-1" Stores.two_buckets =
    (Some tt, None, Stores.two_buckets) /\
  GetS3BucketOwnershipControlsE "eu-west-1" "alpha" (Mem.start Stores.two_buckets) =
    (Returned (Some ["ObjectWriter"], None),
     Mem.state Stores.two_buckets [GetBucketOwnershipControls (Some "alpha")]).
Proof.
  split; [reflexivity|].
  exact (proj1 (GetS3BucketOwnershipControlsE_cases (sdk := Mem.sdk) "eu-west-1" "alpha"
                  (Mem.start Stores.two_buckets) tt Stores.two_buckets _ Stores.two_buckets
                  eq_refl eq_refl) _ eq_refl).
Defined.

Lemma GetS3ObjectContentsE_cases_witness :
  @NewAuthenticatedSession Configured.sdk "eu-west-1" tt = (Some tt, None, tt) /\
  GetS3ObjectContentsE "eu-west-1" "site" "index.html" Configured.start =
    (Returned ("<html></html>", None),
     @Build_State Configured.sdk tt [GetObject (Some "site") (Some "index.html")]) /\
  GetS3ObjectContentsE "eu-west-1" "site" "torn" Configured.start =
    (Returned ("", Some (ErrSdk (SdkError "unexpected EOF"))),
     @Build_State Configured.sdk tt [GetObject (Some "site") (Some "torn")]).
Proof.
  split; [reflexivity|]. split.
  - exact (proj1 (GetS3ObjectContentsE_cases (sdk := Configured.sdk) "eu-west-1" "site"
                    "index.html" Configured.start tt tt _ tt eq_refl eq_refl) eq_refl).
  - exact (proj2 (GetS3ObjectContentsE_cases (sdk := Configured.sdk) "eu-west-1" "site"
                    "torn" Configured.start tt tt _ tt eq_refl eq_refl) _ eq_refl).
Defined.

Lemma client_construction_error_witness :
  @NewAuthenticatedSession Mem.sdk "eu-west-1" locked_out =
    (None, Some (ErrSdk (SdkError "NoCredentialProviders")), locked_out) /\
  error_returning (CallPutS3ObjectContents "eu-west-1" "alpha" "k"
                     {| reader_data := "x"; reader_err := None |}) (Mem.start locked_out) =
    (Returned (VNothing,
               Some (ErrWrapped "failed to instantiate s3 client: %w"
                       (ErrSdk (SdkError "NoCredentialProviders")))),
     Mem.state locked_out []) /\
  error_returning (CallGetS3BucketTags "eu-west-1" "alpha") (Mem.start locked_out) =
    (Returned (VTags None, Some (ErrSdk (SdkError "NoCredentialProviders"))),
     Mem.state locked_out []).
Proof.
  split; [reflexivity|]. split.
  - exact (client_construction_error (sdk := Mem.sdk)
             (CallPutS3ObjectContents "eu-west-1" "alpha" "k"
                {| reader_data := "x"; reader_err := None |})
             (Mem.start locked_out) None _ locked_out eq_refl).
  - exact (client_construction_error (sdk := Mem.sdk)
             (CallGetS3BucketTags "eu-west-1" "alpha")
             (Mem.start locked_out) None _ locked_out eq_refl).
Defined.

Lemma FindS3BucketWithTagE_first_match_witness :
  no_bucket_carries (sdk := Mem.sdk) tt "env" "prod" [ {| Name := Some "alpha" |} ]
    Stores.two_buckets /\
  carries_pair "env" "prod"
    [ {| Key := Some "env"; Value := Some "prod" |};
      {| Key := Some "team"; Value := Some "infra" |};
      {| Key := Some "env"; Value := Some "stage" |} ] /\
  FindS3BucketWithTagE "eu-west-1" "env" "prod" (Mem.start Stores.two_buckets) =
    (Returned ("beta", None),
     Mem.state Stores.two_buckets
       [ListBuckets; GetBucketTagging (Some "alpha"); GetBucketTagging (Some "beta")]).
Proof.
  assert (no_bucket_carries (sdk := Mem.sdk) tt "env" "prod" [ {| Name := Some "alpha" |} ]
            Stores.two_buckets) as Hnone by (repeat split).
  assert (carries_pair "env" "prod"
            [ {| Key := Some "env"; Value := Some "prod" |};
              {| Key := Some "team"; Value := Some "infra" |};
              {| Key := Some "env"; Value := Some "stage" |} ]) as Hpair.
  { exists [], {| Key := Some "env"; Value := Some "prod" |},
      [ {| Key := Some "team"; Value := Some "infra" |};
        {| Key := Some "env"; Value := Some "stage" |} ].
    repeat split. }
  split; [exact Hnone|]. split; [exact Hpair|].
  exact (proj1 (FindS3BucketWithTagE_first_match (sdk := Mem.sdk) "eu-west-1" "env" "prod"
                  (Mem.start Stores.two_buckets) tt Stores.two_buckets
                  {| Buckets := [ {| Name := Some "alpha" |}; {| Name := Some "beta" |} ] |}
                  Stores.two_buckets [ {| Name := Some "alpha" |} ] {| Name := Some "beta" |}
                  [] _ "beta" eq_refl eq_refl eq_refl Hnone eq_refl Hpair eq_refl)).
Defined.

Lemma FindS3BucketWithTagE_result_witness :
  FindS3BucketWithTagE "eu-west-1" "env" "prod" (Mem.start Stores.two_buckets) =
    (Returned ("beta", None),
     Mem.state Stores.two_buckets
       [ListBuckets; GetBucketTagging (Some "alpha"); GetBucketTagging (Some "beta")]) /\
  exists bucket,
    In bucket [ {| Name := Some "alpha" |}; {| Name := Some "beta" |} ] /\
    Name bucket = Some "beta".
Proof.
  split; [reflexivity|].
  destruct (proj2 (FindS3BucketWithTagE_result (sdk := Mem.sdk) "eu-west-1" "env" "prod"
                     (Mem.start Stores.two_buckets) "beta" None _ eq_refl)
                  ltac:(discriminate))
    as (cfg & w1 & resp & w2 & bucket & Hs & Hlist & Hin & Hname).
  injection Hs as <- <-. injection Hlist as <- _.
  exists bucket. split; [exact Hin | exact Hname].
Defined.

Lemma reading_helpers_do_not_mutate_witness :
  reading_helper (CallFindS3BucketWithTag "eu-west-1" "env" "prod") = true /\
  exists reqs,
    calls (snd (error_returning (CallFindS3BucketWithTag "eu-west-1" "env" "prod")
                  (Mem.start Stores.two_buckets))) = [] ++ reqs /\
    Forall (fun r => mutating r = false) reqs.
Proof.
  split; [reflexivity|].
  exact (reading_helpers_do_not_mutate (sdk := Mem.sdk)
           (CallFindS3BucketWithTag "eu-west-1" "env" "prod")
           (Mem.start Stores.two_buckets) eq_refl).
Defined.

Lemma error_with_zero_value_witness :
  error_returning (CallGetS3BucketPolicy "eu-west-1" "alpha") (Mem.start Stores.two_buckets) =
    (Returned (VString "", Some (ErrSdk (SdkError "NoSuchBucketPolicy"))),
     Mem.state Stores.two_buckets [GetBucketPolicy (Some "alpha")]) /\
  @VString Mem.sdk "" = zero_value (CallGetS3BucketPolicy "eu-west-1" "alpha").
Proof.
  split; [reflexivity|].
  exact (error_with_zero_value (sdk := Mem.sdk) (CallGetS3BucketPolicy "eu-west-1" "alpha")
           (Mem.start Stores.two_buckets) _ _ _ eq_refl).
Defined.

Lemma GetS3BucketTagsE_size_witness :
  List.NoDup (map tag_key [ {| Key := Some "env"; Value := Some "prod" |};
                            {| Key := Some "team"; Value := Some "web" |} ]) /\
  exists tags : gmap string string,
    fst (GetS3BucketTagsE "eu-west-1" "site" Configured.start) = Returned (Some tags, None) /\
    size tags = 2 /\
    tags !! "team" = Some "web".
Proof.
  assert (List.NoDup (map tag_key [ {| Key := Some "env"; Value := Some "prod" |};
                                    {| Key := Some "team"; Value := Some "web" |} ]))
    as Hnodup.
  { repeat constructor; cbn; intuition discriminate. }
  split; [exact Hnodup|].
  destruct (GetS3BucketTagsE_size (sdk := Configured.sdk) "eu-west-1" "site"
              Configured.start tt tt _ tt eq_refl eq_refl)
    as (tags & Hrun & _ & Hdistinct).
  destruct (Hdistinct Hnodup) as [Hsize Hkept].
  exists tags. split; [exact Hrun|]. split; [exact Hsize|].
  exact (Hkept {| Key := Some "team"; Value := Some "web" |} (or_intror (or_introl eq_refl))).
Defined.

Lemma PutS3BucketVersioningE_request_witness :
  @NewAuthenticatedSession Mem.sdk "eu-west-1" Stores.two_buckets =
    (Some tt, None, Stores.two_buckets) /\
  calls (snd (PutS3BucketVersioningE "eu-west-1" "alpha" (Mem.start Stores.two_buckets))) =
  [] ++ [PutBucketVersioning (Some "alpha")
           (Some {| vc_MFADelete := "Disabled"; vc_Status := "Enabled" |})].
Proof.
  split; [reflexivity|].
  exact (PutS3BucketVersioningE_request (sdk := Mem.sdk) "eu-west-1" "alpha"
           (Mem.start Stores.two_buckets) tt Stores.two_buckets eq_refl).
Defined.

(** ** The emptying routine, page by page *)

Section Pages.
Context `{sdk : Sdk}.

Lemma versions_present (listing : ListObjectVersionsOutput) :
  Versions listing <> [] -> Nat.eqb (length (Versions listing)) 0 = false.
Proof. destruct (Versions listing); [contradiction | reflexivity]. Qed.

(** The loop follows the pages: it sends their requests and leaves with
    their error value, by [return] or, the value being nil, by [break]. *)
Lemma EmptyS3BucketE_loop_paginates cfg name params (s : State) reqs r w' :
  Pagination cfg name (world s) params reqs r w' ->
  exists fuel exit,
    (exit = LoopReturn r \/ exit = LoopBreak /\ r = None) /\
    forall fuel', fuel <= fuel' ->
      EmptyS3BucketE_loop fuel' (Some (NewFromConfig cfg)) name params s =
      (Returned exit, {| world := w'; calls := calls s ++ reqs |}).
Proof.
  intros Hpages. remember (world s) as w eqn:Hw. revert s Hw.
  induction Hpages as
    [ w params out e w1 Hlist
    | w params listing w1 Hlist Hnil
    | w params listing w1 out e w2 Hlist Hsome Hdel
    | w params listing w1 out w2 Hlist Hsome Hdel Htrunc
    | w params listing w1 out w2 k reqs r w' Hlist Hsome Hdel Htrunc Hnext Hpages IH ];
    intros s ->.
  - exists 1, (LoopReturn (Some (ErrSdk e))). split; [left; reflexivity|].
    intros [|fuel'] Hle; [lia|].
    apply EmptyS3BucketE_loop_stops; [|intros p; discriminate].
    rewrite EmptyS3BucketE_body_run, Hlist. destruct out; reflexivity.
  - exists 1, (LoopReturn None). split; [left; reflexivity|].
    intros [|fuel'] Hle; [lia|].
    apply EmptyS3BucketE_loop_stops; [|intros p; discriminate].
    rewrite EmptyS3BucketE_body_run, Hlist. apply length_zero_nil in Hnil.
    rewrite Hnil. reflexivity.
  - exists 1, (LoopReturn (Some (ErrSdk e))). split; [left; reflexivity|].
    intros [|fuel'] Hle; [lia|].
    apply EmptyS3BucketE_loop_stops; [|intros p; discriminate].
    rewrite EmptyS3BucketE_body_run, Hlist, (versions_present _ Hsome).
    cbv zeta. rewrite Hdel, <- app_assoc. reflexivity.
  - exists 1, LoopBreak. split; [right; split; reflexivity|].
    intros [|fuel'] Hle; [lia|].
    apply EmptyS3BucketE_loop_stops; [|intros p; discriminate].
    rewrite EmptyS3BucketE_body_run, Hlist, (versions_present _ Hsome).
    cbv zeta. rewrite Hdel, Htrunc, <- app_assoc. reflexivity.
  - destruct (IH {| world := w2;
                    calls := (calls s ++ [ListObjectVersions params]) ++
                             [bulk_delete name listing] |} eq_refl)
      as (fuel & exit & Hexit & Hrun).
    exists (S fuel), exit. split; [exact Hexit|].
    intros [|fuel'] Hle; [lia|].
    rewrite EmptyS3BucketE_loop_S, EmptyS3BucketE_body_run, Hlist, (versions_present _ Hsome).
    cbv zeta. rewrite Hdel, Htrunc, Hnext, (Hrun fuel') by lia.
    cbn [calls]. rewrite <- !app_assoc. reflexivity.
Qed.

(** C4 (amended). [EmptyS3BucketE] runs its loop from a listing of the named
    bucket without key marker and follows the pages: in each pass it lists
    the versions of the bucket; a listing that fails ends the routine with
    that error; a listing without versions makes it return nil at once;
    otherwise it sends one [DeleteObjects] for the bucket naming every
    listed version and every listed delete marker; a delete that fails ends
    the routine with that error; after a delete that succeeds it goes round
    again with [KeyMarker] set to the listing's [NextKeyMarker] when the
    listing is truncated (and carries that marker), and leaves the loop and
    returns nil when the listing is not truncated.  The requests sent are
    those of the pages, in order, and no others. *)
Theorem EmptyS3BucketE_paginates (region name : string) (s : State) cfg w1 reqs r w' :
  NewAuthenticatedSession region (world s) = (Some cfg, None, w1) ->
  Pagination cfg name w1 (first_page name) reqs r w' ->
  exists fuel,
    forall fuel', fuel <= fuel' ->
      EmptyS3BucketE fuel' region name s =
      (Returned r, {| world := w'; calls := calls s ++ reqs |}).
Proof.
  intros Hs Hpages.
  destruct (EmptyS3BucketE_loop_paginates cfg name (first_page name)
              {| world := w1; calls := calls s |} reqs r w' Hpages)
    as (fuel & exit & Hexit & Hrun).
  exists fuel. intros fuel' Hle. unfold EmptyS3BucketE.
  rewrite (bind_run _ _ s tt s) by reflexivity.
  rewrite (bind_run _ _ _ _ _ (NewS3ClientE_ok _ _ _ _ Hs)).
  cbv zeta. unfold String_ptr. fold (first_page name).
  rewrite (bind_run _ _ _ _ _ (Hrun fuel' Hle)).
  destruct Hexit as [->|[-> ->]]; reflexivity.
Qed.

End Pages.

Lemma EmptyS3BucketE_paginates_witness :
  @NewAuthenticatedSession Mem.sdk "eu-west-1" Stores.three_versions =
    (Some tt, None, Stores.three_versions) /\
  exists reqs w',
    Pagination (sdk := Mem.sdk) tt "data" Stores.three_versions (first_page "data")
      reqs None w' /\
    length reqs = 4 /\
    exists fuel,
      forall fuel', fuel <= fuel' ->
        EmptyS3BucketE fuel' "eu-west-1" "data" (Mem.start Stores.three_versions) =
        (Returned None, Mem.state w' ([] ++ reqs)).
Proof.
  split; [reflexivity|].
  assert (exists reqs w',
            Pagination (sdk := Mem.sdk) tt "data" Stores.three_versions (first_page "data")
              reqs None w' /\ length reqs = 4) as (reqs & w' & Hpages & Hlen).
  { do 2 eexists. split.
    - eapply page_next;
        [reflexivity | discriminate | reflexivity | reflexivity | reflexivity |].
      eapply page_last; [reflexivity | discriminate | reflexivity | reflexivity].
    - reflexivity. }
  exists reqs, w'. split; [exact Hpages|]. split; [exact Hlen|].
  exact (EmptyS3BucketE_paginates (sdk := Mem.sdk) "eu-west-1" "data"
           (Mem.start Stores.three_versions) tt Stores.three_versions reqs None w'
           eq_refl Hpages).
Defined.

(** C4 as stated fails: on the store whose bulk deletes fail, the first
    listing shows a version and is truncated, and [EmptyS3BucketE] returns
    the error of the delete without asking for the next page. *)
Lemma truncated_listing_continues_fails : ~ @truncated_listing_continues Unreachable.sdk.
Proof.
  intros Hcontinues.
  pose proof (Hcontinues "eu-west-1" "data" Unreachable.start tt tt _ tt 0
                eq_refl eq_refl ltac:(discriminate) eq_refl) as Hin.
  vm_compute in Hin. destruct Hin as [Hin|[Hin|[]]]; discriminate Hin.
Qed.

(** What the routine does there: one listing, one delete, and the error. *)
Example EmptyS3BucketE_delete_fails (fuel : nat) :
  EmptyS3BucketE (S fuel) "eu-west-1" "data" Unreachable.start =
  (Returned (Some (ErrSdk Unreachable.request_error)),
   @Build_State Unreachable.sdk tt
     [ListObjectVersions (first_page "data");
      DeleteObjects (Some "data")
        (Some {| Objects := [ {| oi_Key := Some "a"; oi_VersionId := Some "1" |} ] |})]).
Proof. reflexivity. Qed.

(** C9. On the store with a tagged and an untagged bucket no bucket carries
    the pair [env]=[qa], and [FindS3BucketWithTagE] does not return the
    empty name with a nil error: the untagged bucket answers "NoSuchTagSet"
    with a nil response, and the search panics on [tagResponse.TagSet]. *)
Theorem FindS3BucketWithTagE_not_found_panics :
  forallb (fun b => forallb (other_tag "env" "qa") (Mem.bucket_tags b))
          (Mem.buckets tagged_and_untagged) = true /\
  FindS3BucketWithTagE "eu-west-1" "env" "qa" (Mem.start tagged_and_untagged) =
  (Panicked,
   Mem.state tagged_and_untagged
     [ListBuckets; GetBucketTagging (Some "alpha"); GetBucketTagging (Some "plain")]).
Proof. split; reflexivity. Qed.
